(** * cd6_map: overlay of Kentucky's 6th congressional district on the
    county layer, and the address containment check of the generated page.

    The script [cd6_map.py] is a driver over a planar geometry library
    (shapely through geopandas) and a map widget (folium).  The development
    has these parts:

    - [Grid]: an exact point-set model of the geometry operations the script
      calls, on shapes whose vertices lie on the integer lattice;
    - [Files]: [download_and_extract_data] on a store of files;
    - [Overlay]: the control flow of [create_ky6_map], written over an
      interface of fallible geometry operations, with the map's children and
      the printed lines threaded as explicit state, and an exception that
      leaves the function as an outcome of the run;
    - [Composer]: the layer set as the design describes it, group by group,
      for comparison with the run;
    - [Lattice]: the geometry library of [Grid] behind the interface of
      [Overlay], on geometries whose rings may be unsound;
    - [Lookup] and [Page]: the JavaScript embedded in the page, that is,
      [checkIfInDistrict] and the search box around it. *)

From Stdlib Require Import ZArith QArith Qround Lia List.
From stdpp Require Import base decidable option list gmap sets fin_sets strings sorting.

Open Scope Z_scope.

(** ** Exceptions

    A call into the geometry library either returns or raises; [exn] is the
    text of the exception (the [{e}] of the script's f-strings). *)

Definition exn := string.

Inductive result (A : Type) : Type :=
  | Ok (a : A)
  | Raise (e : exn).
Arguments Ok {A} a.
Arguments Raise {A} e.

(** A coordinate pair as the script reads it: [p.x], [p.y]. *)
Record point := Point { px : Q; py : Q }.

(** ** The geometry library, on lattice shapes *)

Module Grid.

(** The plane is cut by the integer lattice into vertices, open unit edges
    and open unit squares.  A cell is named by doubled coordinates: an even
    coordinate [2k] stands for the single value [k], an odd coordinate
    [2k+1] for the open interval between [k] and [k+1].  So [(2,4)] is the
    vertex (1,2), [(3,4)] the open edge from (1,2) to (2,2), and [(3,5)] the
    open square with corners (1,2) and (2,3).  A shape is a finite union of
    cells; the library's geometries are the closed ones. *)

Definition cell : Type := Z * Z.
Abbreviation shape := (gset cell).

Definition is_square (c : cell) : bool := Z.odd c.1 && Z.odd c.2.

(** The values a closed interval named by [a] meets. *)
Definition faces (a : Z) : list Z :=
  if Z.odd a then [a - 1; a; a + 1] else [a].

Definition cell_closure (c : cell) : shape :=
  list_to_set (a ← faces c.1; b ← faces c.2; [(a, b)]).

Definition closure (s : shape) : shape := set_bind cell_closure s.

Definition squares (s : shape) : shape :=
  filter (λ c, is_square c = true) s.

(** Modelled from the spec: the area of a geometry, here the number of unit
    squares it holds.  The script never computes an area. *)
Definition area (s : shape) : nat := size (squares s).

(** The cell a point lies in. *)
Definition locate1 (q : Q) : Z :=
  let f := Qfloor q in
  if Qeq_bool (inject_Z f) q then 2 * f else 2 * f + 1.

Definition locate (p : point) : cell := (locate1 (px p), locate1 (py p)).

(** Modelled from the spec: the exact point-in-polygon test of section 4.5,
    against the shape's own point set (a point in a hole is in no cell of
    the shape).  The script has no such function. *)
Definition contains (s : shape) (p : point) : bool :=
  bool_decide (locate p ∈ s).

(** Modelled from the spec: the single intersects predicate of section
    4.2, the library's [a.intersects(b)], which is not part of the script:
    true when the two geometries share any point, boundary included. *)
Definition intersects (a b : shape) : bool :=
  negb (bool_decide (a ∩ b = ∅)).

(** Modelled from the spec: [clipIn] of section 4.3, the library's
    [a.intersection(b)], which is not part of the script: the set
    intersection. *)
Definition intersection (a b : shape) : shape := a ∩ b.

(** Modelled from the spec: [clipOut] of section 4.3, the library's
    [a.difference(b)], which is not part of the script: the set difference,
    closed up again as the library returns closed geometries. *)
Definition difference (a b : shape) : shape := closure (a ∖ b).

(** Modelled from the spec: emptiness of a geometry, the library's
    [is_empty]. *)
Definition is_empty (s : shape) : bool := bool_decide (s = ∅).

(** Modelled from the spec: validity of a geometry, the library's
    [is_valid]; a shape is a valid geometry when it is a closed point set. *)
Definition is_valid (s : shape) : bool := bool_decide (closure s ⊆ s).

(** Modelled from the spec: the zero-distance buffer of section 4.1, the
    library's [buffer(0)], which is not part of the script.  It keeps the
    areal part of the shape and closes it; dangling edges and isolated
    points vanish. *)
Definition buffer0 (s : shape) : shape := closure (squares s).

(** Squares sharing an edge. *)
Definition neighbours (c : cell) : shape :=
  {[ (c.1 - 2, c.2); (c.1 + 2, c.2); (c.1, c.2 - 2); (c.1, c.2 + 2) ]}.

Fixpoint flood (fuel : nat) (sq seen : shape) : shape :=
  match fuel with
  | O => seen
  | S k => flood k sq (seen ∪ (set_bind neighbours seen ∩ sq))
  end.

(** One part: every square is reached from the first through shared edges. *)
Definition connected (sq : shape) : bool :=
  match elements sq with
  | [] => true
  | c :: _ => bool_decide (flood (size sq) sq {[ c ]} = sq)
  end.

Definition edges (s : shape) : shape :=
  filter (λ c : cell, xorb (Z.odd c.1) (Z.odd c.2) = true) s.

(** Modelled from the spec: the geometry kind string of section 9, the
    library's [geom_type], which is not part of the script.  A shape
    that is the closure of its squares is a [Polygon] when the squares form
    one part and a [MultiPolygon] otherwise; the empty shape is the empty
    polygon [buffer(0)] returns.  Anything with a lower-dimensional
    remainder is a line, a point or a collection. *)
Definition geom_type (s : shape) : string :=
  if bool_decide (s = buffer0 s) then
    if connected (squares s) then "Polygon" else "MultiPolygon"
  else if bool_decide (squares s ≠ ∅) then "GeometryCollection"
  else if bool_decide (edges s ≠ ∅) then "LineString"
  else "Point".

(** The cells of the highest dimension present: the library measures a
    mixed geometry by its areal part, a geometry without area by its lines,
    and one without lines by its points. *)
Definition top_cells (s : shape) : shape :=
  if bool_decide (squares s ≠ ∅) then squares s
  else if bool_decide (edges s ≠ ∅) then edges s
  else s.

Definition sum_with (f : cell → Z) (s : shape) : Z :=
  foldr (λ c acc, f c + acc) 0 (elements s).

(** Modelled from the spec: the area-weighted centroid of section 4.4, the
    library's [centroid], which is not part of the script.  The centre of
    the cell [(a,b)] is [(a/2, b/2)] and cells of one dimension weigh the
    same, so the centroid is the mean of the centres of the top cells.  The
    empty geometry has an empty centroid, whose coordinates cannot be
    read. *)
Definition centroid (s : shape) : result point :=
  let t := top_cells s in
  let n := Z.of_nat (size t) in
  if bool_decide (n = 0) then Raise "empty point has no coordinates"
  else Ok (Point (sum_with fst t # Z.to_pos (2 * n))
                 (sum_with snd t # Z.to_pos (2 * n))).

(** Modelled from the spec: the guaranteed-interior representative point of
    section 4.4, the library's [representative_point], which is not part of
    the script; taken as the centre of one top cell of the shape. *)
Definition representative_point (s : shape) : result point :=
  match elements (top_cells s) with
  | [] => Raise "empty point has no coordinates"
  | c :: _ => Ok (Point (c.1 # 2) (c.2 # 2))
  end.

(** Two geometries that meet, but in no area: they touch on a boundary. *)
Definition touches_only (a b : shape) : Prop :=
  intersects a b = true ∧ area (intersection a b) = 0%nat.

(** The closed rectangle with corners [(x0,y0)] and [(x0+w, y0+h)]. *)
Definition rect (x0 y0 : Z) (w h : nat) : shape :=
  closure (list_to_set
    (i ← seqZ 0 (Z.of_nat w); j ← seqZ 0 (Z.of_nat h);
     [(2 * (x0 + i) + 1, 2 * (y0 + j) + 1)])).

(** The three classes of section 4.2. *)
Inductive tag := DISJOINT | CONTAINED | PARTIAL.

(** Modelled from the spec: [classify] of section 4.2 with its tie-break,
    on exact areas: a candidate that shares no area with the Region is
    disjoint, one whose whole area is shared is contained, any other is
    partial.  The script has no such function. *)
Definition classify (region candidate : shape) : tag :=
  let common := area (intersection candidate region) in
  if decide (common = 0%nat) then DISJOINT
  else if decide (common = area candidate) then CONTAINED
  else PARTIAL.

End Grid.

(** ** The data files *)

Module Files.

(** [os.path.exists] and [shutil.copy2] see a store of files by path; what
    matters of a file is its content. *)
Abbreviation store := (gmap string string).

Definition congress_dir : string := "tl_2024_21_cd119".
Definition county_dir : string := "tl_2024_us_county".

(** Lines 32 and 41. *)
Definition sidecars : list string := [".shp"; ".shx"; ".dbf"; ".prj"; ".cpg"].

Definition exists_ (fs : store) (path : string) : bool :=
  bool_decide (is_Some (fs !! path)).

(** Lines 35-36 and 44-45: [if os.path.exists(src): shutil.copy2(src, dst)].
    The copy overwrites [dst]. *)
Definition copy_if_exists (src dst : string) (fs : store) : store :=
  match fs !! src with
  | Some data => <[dst := data]> fs
  | None => fs
  end.

(** The loops of lines 32-36 and 41-45, over the five extensions. *)
Definition copy_files (src_stem dst_stem : string) (fs : store) : store :=
  foldl (λ fs ext, copy_if_exists (src_stem +:+ ext) (dst_stem +:+ ext) fs)
        fs sidecars.

Definition congress_stem : string := congress_dir +:+ "/tl_2024_21_cd119".
Definition county_stem : string := county_dir +:+ "/tl_2024_us_county".

(** Lines 11-48: the returned flag, the store afterwards, and the lines
    printed. *)
Definition download_and_extract_data (fs : store)
  : bool * store * list string :=
  if negb (exists_ fs (congress_stem +:+ ".shp")) then
    (false, fs,
     ["Error: Could not find congressional district shapefile in "
        +:+ congress_dir +:+ "/";
      "Please make sure the tl_2024_21_cd119 folder is in the same directory as this script."])
  else if negb (exists_ fs (county_stem +:+ ".shp")) then
    (false, fs,
     ["Error: Could not find county shapefile in " +:+ county_dir +:+ "/";
      "Please make sure the tl_2024_us_county folder is in the same directory as this script."])
  else
    let fs :=
      if negb (exists_ fs "congress_districts.shp")
      then copy_files congress_stem "congress_districts" fs else fs in
    let fs :=
      if negb (exists_ fs "counties.shp")
      then copy_files county_stem "counties" fs else fs in
    (true, fs, ["Using local data files successfully!"]).

(** *** Auxiliary notions for the copies *)

(** The copy loop over any list of extensions. *)
Definition copy_each (src_stem dst_stem : string) (exts : list string)
    (fs : store) : store :=
  foldl (λ fs ext, copy_if_exists (src_stem +:+ ext) (dst_stem +:+ ext) fs)
        fs exts.

(** No path built on the first stem is a path built on the second. *)
Definition apart (a b : string) : Prop :=
  Forall (λ e, Forall (λ e', a +:+ e ≠ b +:+ e') sidecars) sidecars.

(** The store after the two groups of copies of lines 29-45, whichever are
    made. *)
Definition copied (fs : store) : store :=
  let fs := if negb (exists_ fs "congress_districts.shp")
            then copy_files congress_stem "congress_districts" fs else fs in
  if negb (exists_ fs "counties.shp")
  then copy_files county_stem "counties" fs else fs.

(** The ten names the function may write. *)
Definition working_copies : list string :=
  ((λ ext, "congress_districts" +:+ ext) <$> sidecars)
  ++ ((λ ext, "counties" +:+ ext) <$> sidecars).

End Files.

(** ** The overlay pass of [create_ky6_map] *)

Module Overlay.

(** The geometry operations the script calls.  [intersection] and
    [difference] (lines 82 and 161), the GeoJSON serialisation behind
    [folium.GeoJson] and [__geo_interface__] (lines 142, 163, 207) and the two
    anchor operations (lines 235, 237) sit inside [try] blocks; [buffer(0)]
    (line 97) is called outside any handler.  Each of them returns or
    raises.  [intersects] (lines 76, 137), [is_empty], [is_valid] and
    [geom_type] are predicates and properties, and return. *)
Class Geometry (G J : Type) := {
  intersects : G → G → bool;
  intersection : G → G → result G;
  difference : G → G → result G;
  is_empty : G → bool;
  is_valid : G → bool;
  buffer0 : G → result G;
  geom_type : G → string;
  centroid : G → result point;
  representative_point : G → result point;
  geo_interface : G → result J;
}.

(** Rows of the two shapefiles, with the columns the script reads. *)
Record district (G : Type) := District {
  dSTATEFP : string;
  CD119FP : string;
  dgeometry : G;
}.
Arguments District {G}.
Arguments dSTATEFP {G}.
Arguments CD119FP {G}.
Arguments dgeometry {G}.

Record county (G : Type) := County {
  STATEFP : string;
  NAME : string;
  geometry : G;
}.
Arguments County {G}.
Arguments STATEFP {G}.
Arguments NAME {G}.
Arguments geometry {G}.

(** [county_data.geometry = g] on a copy of the row. *)
Definition with_geometry {G} (c : county G) (g : G) : county G :=
  County (STATEFP c) (NAME c) g.

(** The three style dictionaries of the script, named by what they draw:
    grey fill [#808080] (lines 144-149, 165-170), the blue outline of weight
    5 without fill (lines 181-186), light blue fill [#87CEEB] (lines
    212-218). *)
Inductive style := Excluded | Boundary | Included.

(** The tooltips: [f"{NAME} County (Outside District)"], the district title,
    and the county name. *)
Inductive tooltip :=
  | OutsideDistrict (name : string)
  | DistrictTitle
  | CountyName (name : string).

(** What is added to the map [m], in the order of the [add_to] calls. *)
Inductive child (G J : Type) :=
  | GeoJson (data : J) (st : style) (tip : tooltip)
  | GeoJsonFrame (rows : list (district G)) (st : style) (tip : tooltip)
  | Marker (location : Q * Q) (label : string).
Arguments GeoJson {G J}.
Arguments GeoJsonFrame {G J}.
Arguments Marker {G J}.

(** The lines the script prints. *)
Inductive line :=
  | DataFiles (text : string)                      (* lines 19-20, 24-25, 47 *)
  | DistrictNotFound                               (* line 66 *)
  | AvailableDistricts (codes : list string)       (* line 68 *)
  | SkippingGeometryIssues (name : string)         (* line 88 *)
  | ErrorProcessing (name : string) (e : exn)      (* line 90 *)
  | ErrorAddingOutside (name : string) (e : exn)   (* line 154 *)
  | ErrorAddingOutsidePart (name : string) (e : exn) (* line 175 *)
  | SkippingInvalidGeometry (name : string)        (* line 196 *)
  | ErrorAddingCounty (name : string) (e : exn)    (* line 250 *)
  | MapCreated                                     (* line 437 *)
  | CountiesHeading                                (* line 438 *)
  | CountyListed (name : string).                  (* line 440 *)

(** [Series.unique()]: first occurrences, in order. *)
Fixpoint unique (l : list string) : list string :=
  match l with
  | [] => []
  | x :: l' => x :: filter (λ y, y ≠ x) (unique l')
  end.

(** Python orders strings by code point, which on byte strings is the
    lexicographic order of the bytes. *)
Definition str_le (a b : string) : Prop := Strings.String.leb a b = true.

#[export] Instance str_le_dec (a b : string) : Decision (str_le a b).
Proof. unfold str_le. apply _. Defined.

(** Lines 439-440: [sorted(clipped_counties['NAME'].unique())], one printed
    line per name. *)
Definition listing {G} (clipped : list (county G)) : list string :=
  merge_sort str_le (unique (NAME <$> clipped)).

(** What lines 94 and 97 meet when no row was ever added: a frame without
    a geometry column, to which no coordinate system can be assigned and in
    which there is no ['geometry'] to buffer.  The text of the exception
    depends on the version of the library; this one stands for it. *)
Definition no_geometry_column : exn := "no geometry column".

Section Run.
Context {G J : Type} `{Geometry G J}.

(** The map under construction and the lines printed so far. *)
Record world := World {
  children : list (child G J);
  stdout : list line;
}.

Definition add_to (c : child G J) (w : world) : world :=
  World (children w ++ [c]) (stdout w).

Definition print (l : line) (w : world) : world :=
  World (children w) (stdout w ++ [l]).

(** Lines 63 and 72. *)
Definition ky6_district (districts : list (district G)) : list (district G) :=
  filter (λ d, dSTATEFP d = "21" ∧ CD119FP d = "06") districts.

Definition ky_counties (counties : list (county G)) : list (county G) :=
  filter (λ c, STATEFP c = "21") counties.

(** Line 76. *)
Definition intersecting_counties (ky6_geom : G) (counties : list (county G))
  : list (county G) :=
  filter (λ c, intersects (geometry c) ky6_geom = true) (ky_counties counties).

(** Line 137. *)
Definition outside_counties (ky6_geom : G) (counties : list (county G))
  : list (county G) :=
  filter (λ c, negb (intersects (geometry c) ky6_geom) = true)
         (ky_counties counties).

(** Body of the loop at lines 80-91: the frame [clipped_counties] grows by
    one row, or a line is printed. *)
Definition clip_county (ky6_geom : G) (st : list (county G) * world)
    (c : county G) : list (county G) * world :=
  match intersection (geometry c) ky6_geom with
  | Ok clipped_geom =>
      if negb (is_empty clipped_geom) && is_valid clipped_geom
      then (st.1 ++ [with_geometry c clipped_geom], st.2)
      else (st.1, print (SkippingGeometryIssues (NAME c)) st.2)
  | Raise e => (st.1, print (ErrorProcessing (NAME c) e) st.2)
  end.

(** Line 97, over the whole geometry column: the first call that raises
    ends the statement. *)
Fixpoint repair (frame : list (county G)) : result (list (county G)) :=
  match frame with
  | [] => Ok []
  | c :: frame' =>
      match buffer0 (geometry c) with
      | Raise e => Raise e
      | Ok g =>
          match repair frame' with
          | Raise e => Raise e
          | Ok rest => Ok (with_geometry c g :: rest)
          end
      end
  end.

(** Body of the loop at lines 140-155. *)
Definition add_outside_county (w : world) (c : county G) : world :=
  match geo_interface (geometry c) with
  | Ok j => add_to (GeoJson j Excluded (OutsideDistrict (NAME c))) w
  | Raise e => print (ErrorAddingOutside (NAME c) e) w
  end.

(** Body of the loop at lines 158-176. *)
Definition add_outside_part (ky6_geom : G) (w : world) (c : county G) : world :=
  match difference (geometry c) ky6_geom with
  | Ok outside_part =>
      if negb (is_empty outside_part) then
        match geo_interface outside_part with
        | Ok j => add_to (GeoJson j Excluded (OutsideDistrict (NAME c))) w
        | Raise e => print (ErrorAddingOutsidePart (NAME c) e) w
        end
      else w
  | Raise e => print (ErrorAddingOutsidePart (NAME c) e) w
  end.

(** Lines 234-239: the point a label is placed at.  [None] is the final
    [else: continue]. *)
Definition anchor (g : G) : option (result point) :=
  if decide (geom_type g = "Polygon") then Some (centroid g)
  else if decide (geom_type g = "MultiPolygon") then Some (representative_point g)
  else None.

(** Body of the loop at lines 191-251. *)
Definition add_county (w : world) (c : county G) : world :=
  let county_name := NAME c in
  if is_empty (geometry c) then print (SkippingInvalidGeometry county_name) w
  else
    match geo_interface (geometry c) with
    | Raise e => print (ErrorAddingCounty county_name e) w
    | Ok j =>
        let w := add_to (GeoJson j Included (CountyName county_name)) w in
        match anchor (geometry c) with
        | None => w
        | Some (Raise e) => print (ErrorAddingCounty county_name e) w
        | Some (Ok p) => add_to (Marker (py p, px p) county_name) w
        end
    end.

(** Lines 79-97: the clipped frame, or the exception that ends the run, and
    what was printed on the way.  A frame that received no row has no
    geometry column, and line 94 raises on it. *)
Definition clipped_counties (ky6_geom : G) (counties : list (county G))
    (w : world) : result (list (county G)) * world :=
  let st := fold_left (clip_county ky6_geom)
              (intersecting_counties ky6_geom counties) ([], w) in
  match st.1 with
  | [] => (Raise no_geometry_column, st.2)
  | _ :: _ => (repair st.1, st.2)
  end.

(** Lines 135-251: the four groups of layers, in the order they are added. *)
Definition add_layers (ky6 : list (district G)) (ky6_geom : G)
    (counties clipped : list (county G)) (w : world) : world :=
  let w := fold_left add_outside_county (outside_counties ky6_geom counties) w in
  let w := fold_left (add_outside_part ky6_geom)
             (intersecting_counties ky6_geom counties) w in
  let w := add_to (GeoJsonFrame ky6 Boundary DistrictTitle) w in
  fold_left add_county clipped w.

(** [create_ky6_map], on the store of files line 54 looks at and with what
    [gpd.read_file] gives at lines 57 and 60: a frame, or the exception it
    raises.  The outcome is [Ok (Some m)] when the map [m] is returned,
    [Ok None] on the early return of line 69, and [Raise e] when an
    exception leaves the function; with it come the lines printed.  The page
    furniture added after the layers (title, search box, fullscreen button)
    is not a geometry layer and is left out, and so is the file written by
    [m.save] at line 435. *)
Definition create_ky6_map (fs : Files.store)
    (districts : result (list (district G)))
    (counties : result (list (county G)))
  : result (option (list (child G J))) * list line :=
  let w := World [] (DataFiles <$> (Files.download_and_extract_data fs).2) in
  match districts with
  | Raise e => (Raise e, stdout w)
  | Ok districts =>
  match counties with
  | Raise e => (Raise e, stdout w)
  | Ok counties =>
  match ky6_district districts with
  | [] =>
      (Ok None,
       stdout w ++
       [DistrictNotFound;
        AvailableDistricts
          (unique (CD119FP <$> filter (λ d, dSTATEFP d = "21") districts))])
  | d :: _ =>
      let ky6_geom := dgeometry d in
      let cl := clipped_counties ky6_geom counties w in
      match cl.1 with
      | Raise e => (Raise e, stdout cl.2)
      | Ok clipped =>
          let w := add_layers (ky6_district districts) ky6_geom counties
                     clipped cl.2 in
          (Ok (Some (children w)),
           stdout w ++ [MapCreated; CountiesHeading]
             ++ (CountyListed <$> listing clipped))
      end
  end
  end
  end.

(** *** What one county contributes

    Each loop body reads one row and the Region only, so its effect on the
    map is a list of layers that depends on that row alone. *)

(** Row added to [clipped_counties] by lines 81-91 (none when the clip is
    empty, invalid or raised). *)
Definition clip_row (ky6_geom : G) (c : county G) : list (county G) :=
  match intersection (geometry c) ky6_geom with
  | Ok clipped_geom =>
      if negb (is_empty clipped_geom) && is_valid clipped_geom
      then [with_geometry c clipped_geom] else []
  | Raise _ => []
  end.

(** Layer of a county outside the district: its full geometry, in grey. *)
Definition outside_layer (c : county G) : list (child G J) :=
  match geo_interface (geometry c) with
  | Ok j => [GeoJson j Excluded (OutsideDistrict (NAME c))]
  | Raise _ => []
  end.

(** Layer of the part of an intersecting county outside the district. *)
Definition outside_part_layer (ky6_geom : G) (c : county G) : list (child G J) :=
  match difference (geometry c) ky6_geom with
  | Ok outside_part =>
      if is_empty outside_part then []
      else match geo_interface outside_part with
           | Ok j => [GeoJson j Excluded (OutsideDistrict (NAME c))]
           | Raise _ => []
           end
  | Raise _ => []
  end.

(** The label of a clipped county, when its anchor resolves. *)
Definition label (c : county G) : list (child G J) :=
  match anchor (geometry c) with
  | Some (Ok p) => [Marker (py p, px p) (NAME c)]
  | _ => []
  end.

(** Layers of a row of the repaired clipped frame. *)
Definition county_layers (c : county G) : list (child G J) :=
  if is_empty (geometry c) then []
  else match geo_interface (geometry c) with
       | Ok j => GeoJson j Included (CountyName (NAME c)) :: label c
       | Raise _ => []
       end.

End Run.

Arguments world : clear implicits.

End Overlay.

(** ** The layer set, group by group

    What section 4.6 of the design asks of the composed layer set, written
    out candidate by candidate, with no loop and no state: which rows are
    candidates, which clip is kept for a candidate, and what each of the
    four groups holds.  Where the design is silent the conditions are those
    of the script: only rows of state 21 are candidates, a clip is kept when
    it is not empty and valid, and a geometry that cannot be serialised
    gives no layer.  Nothing here is used by [Overlay]; the run is compared
    with it below. *)

Module Composer.
Import Overlay.

Section Design.
Context {G J : Type} `{Geometry G J}.










End Design.

End Composer.

(** ** The geometry library on the lattice *)

Module Lattice.
Import Grid Overlay.

(** A geometry as read from a file: the point set its rings enclose, and
    whether the rings are topologically sound.  The overlay operations raise
    on an unsound operand and return sound results; the predicates, the
    serialisation and the buffer answer on the point set. *)
Record traced := Traced { outline : shape; sound : bool }.

Definition overlay (op : shape → shape → shape) (a b : traced) : result traced :=
  if sound a && sound b then Ok (Traced (op (outline a) (outline b)) true)
  else Raise "TopologyException".

#[export] Instance traced_geometry : Geometry traced shape := {|
  Overlay.intersects a b := Grid.intersects (outline a) (outline b);
  Overlay.intersection := overlay Grid.intersection;
  Overlay.difference := overlay Grid.difference;
  Overlay.is_empty a := Grid.is_empty (outline a);
  Overlay.is_valid a := sound a && Grid.is_valid (outline a);
  Overlay.buffer0 a := Ok (Traced (Grid.buffer0 (outline a)) true);
  Overlay.geom_type a := Grid.geom_type (outline a);
  Overlay.centroid a := Grid.centroid (outline a);
  Overlay.representative_point a := Grid.representative_point (outline a);
  Overlay.geo_interface a := Ok (outline a);
|}.

(** A geometry with sound rings. *)
Definition ring (s : shape) : traced := Traced s true.

End Lattice.

(** ** The address check of the generated page *)

Module Lookup.

(** [lat] and [lon] are JavaScript numbers; a finite one is the rational it
    denotes, and [>=], [<=] compare those.  (A NaN fails every comparison; it
    is not a coordinate and is left out.)  Each bound is the binary64 value
    its decimal literal is read as. *)
Record box := Box { north : Q; south : Q; east : Q; west : Q }.

Definition bounds : box := {|
  north := 5432467050515661 # 140737488355328;   (* 38.6 *)
  south := 5263582064489267 # 140737488355328;   (* 37.4 *)
  east := -5896900762088243 # 70368744177664;    (* -83.8 *)
  west := -5995417003936973 # 70368744177664;    (* -85.2 *)
|}.

(** Lines 384-398. *)
Definition checkIfInDistrict (lat lon : Q) : bool :=
  Qle_bool (south bounds) lat && Qle_bool lat (north bounds) &&
  Qle_bool (west bounds) lon && Qle_bool lon (east bounds).

(** Modelled from the spec: [contains(region, point)] of section 4.5, the
    exact test against the Region drawn on the map; longitude is the
    abscissa. *)
Definition contains (region : Grid.shape) (lat lon : Q) : bool :=
  Grid.contains region (Point lon lat).

End Lookup.

(** ** A small state

    A district that is the square with corners (0,0) and (2,2), and the
    counties around it. *)

Module Sample.
Import Grid Overlay Lattice.

(** The folder of the script with the two source shapefiles in it. *)
Definition store : Files.store :=
  {[ Files.congress_stem +:+ ".shp" := "districts";
     Files.county_stem +:+ ".shp" := "counties" ]}.

Definition ky6 : traced := ring (rect 0 0 2 2).

Definition districts : list (district traced) :=
  [ District "21" "01" (ring (rect 10 10 1 1)); District "21" "06" ky6 ].

(** Inside the district. *)
Definition fayette : county traced := County "21" "Fayette" (ring (rect 0 0 1 1)).
(** Half inside, half outside. *)
Definition scott : county traced := County "21" "Scott" (ring (rect 1 1 2 1)).
(** Shares the edge from (2,0) to (2,1) with the district and nothing else. *)
Definition bath : county traced := County "21" "Bath" (ring (rect 2 0 1 1)).
(** Away from the district. *)
Definition pike : county traced := County "21" "Pike" (ring (rect 5 5 1 1)).
(** Across the state line. *)
Definition hamilton : county traced := County "39" "Hamilton" (ring (rect 0 0 1 1)).

Definition counties : list (county traced) :=
  [ fayette; scott; bath; pike; hamilton ].

(** A clipped county shaped like a U: two arms of height 3 joined at the
    bottom, with the notch between (1,1) and (2,3) cut away. *)
Definition horseshoe : shape := rect 0 0 1 3 ∪ rect 1 0 1 1 ∪ rect 2 0 1 3.

(** A clipped county in two islands. *)
Definition islands : shape := rect 0 0 1 1 ∪ rect 3 0 1 1.

(** Half inside the district and half outside, with rings that are not
    sound. *)
Definition bowtie : county traced :=
  County "21" "Clark" (Traced (rect 1 0 2 1) false).

(** The state with one county whose rings are unsound. *)
Definition unsound_counties : list (county traced) := [ fayette; bowtie; scott ].

(** A state in which the only county that meets the district has unsound
    rings. *)
Definition lone_counties : list (county traced) := [ bowtie; pike ].


End Sample.

(** ** The search box of the generated page *)

Module Page.
Import Lookup.

(** The value of a text input: a JavaScript string, that is, a sequence of
    UTF-16 code units. *)
Definition text := list N.

(** The code units of a text typed in ASCII. *)
Definition units (s : string) : text :=
  (λ a, Ascii.N_of_ascii a) <$> String.list_ascii_of_string s.

(** The first geocoder record, after [parseFloat]. *)
Record hit := Hit { lat : Q; lon : Q; display_name : string }.

(** How the request of lines 311-312 settles: [fetch] or [json()] throws, or
    an array of records arrives. *)
Inductive response := Thrown | Data (data : list hit).

(** The texts and the three types [showResult] is called with. *)
Inductive message :=
  | PleaseEnter | Checking | AddressNotFound | Yes | No | ErrorChecking.
Inductive kind := success | error | loading.

(** The [addressResult] element: [style.display] is [block] or [none]; the
    colours are those of the last type shown. *)
Record result_box := ResultBox {
  shown : bool;
  innerHTML : option message;
  colours : option kind;
}.

Inductive colour := green | red.

(** A Leaflet marker: the stamp tells one marker object from another. *)
Record marker := Marker {
  stamp : nat;
  at_lat : Q;
  at_lon : Q;
  icon : colour;
  popup_name : string;
  popup_in : bool;
}.

Record view := View { center : Q * Q; zoom : Z }.

(** The Leaflet map of the page: the markers the script has put on it, its
    current view, and the stamp of the next layer. *)
Record leaflet := Leaflet {
  layers : list marker;
  current : view;
  next_stamp : nat;
}.

(** The script's globals and the elements it touches.  [map] tells whether
    the variable [map] holds the Leaflet map (it is [null] until the timer
    of line 285 fires, and stays falsy when no [map_] key is found). *)
Record page := PageState {
  currentMarker : option marker;
  map : bool;
  originalView : option view;
  widget : leaflet;
  addressInput : text;
  addressResult : result_box;
  resetButton : bool;
}.

Definition set_result (b : result_box) (s : page) : page :=
  PageState (currentMarker s) (map s) (originalView s) (widget s)
            (addressInput s) b (resetButton s).

(** Lines 400-419. *)
Definition showResult (m : message) (type : kind) (s : page) : page :=
  set_result (ResultBox true (Some m) (Some type)) s.

(** [map.removeLayer(m)]: by identity; a marker not on the map is left. *)
Definition removeLayer (m : marker) (w : leaflet) : leaflet :=
  Leaflet (filter (λ x, stamp x ≠ stamp m) (layers w)) (current w) (next_stamp w).

(** [L.marker(...).addTo(map)]. *)
Definition addTo (m : marker) (w : leaflet) : leaflet :=
  Leaflet (layers w ++ [m]) (current w) (S (next_stamp w)).

Definition setView (v : view) (w : leaflet) : leaflet :=
  Leaflet (layers w) v (next_stamp w).

(** The code units [String.prototype.trim] strips: the white space and the
    line terminators of ECMAScript (tab, line feed, vertical tab, form feed,
    carriage return, space, no-break space, the space separators of Unicode,
    the line and paragraph separators, and the byte order mark). *)
Definition white_space (u : N) : bool :=
  bool_decide (u ∈ [9; 10; 11; 12; 13; 32; 160; 5760; 8232; 8233; 8239; 8287;
                    12288; 65279]%N)
  || (8192 <=? u)%N && (u <=? 8202)%N.

(** [!address.trim()]: nothing is left once the white space is stripped. *)
Definition blank (address : text) : bool := forallb white_space address.

(** Lines 283-295, when the timer fires: [found] tells whether a [map_] key
    led to the map. *)
Definition loaded (found : bool) (s : page) : page :=
  if found
  then PageState (currentMarker s) true (Some (current (widget s))) (widget s)
                 (addressInput s) (addressResult s) (resetButton s)
  else PageState (currentMarker s) false (originalView s) (widget s)
                 (addressInput s) (addressResult s) (resetButton s).

(** Lines 298-306, up to the first [await]: the page, and whether a request
    went out. *)
Definition submit (s : page) : page * bool :=
  if blank (addressInput s) then (showResult PleaseEnter error s, false)
  else (showResult Checking loading s, true).

(** Lines 331-356. *)
Definition place_marker (h : hit) (isInDistrict : bool) (s : page) : page :=
  if map s then
    let w := match currentMarker s with
             | Some old => removeLayer old (widget s)
             | None => widget s
             end in
    let m := Marker (next_stamp w) (lat h) (lon h)
                    (if isInDistrict then green else red)
                    (display_name h) isInDistrict in
    PageState (Some m) (map s) (originalView s) (addTo m w)
              (addressInput s) (addressResult s) true
  else s.

(** Lines 308-361, from the first [await] on. *)
Definition settle (r : response) (s : page) : page :=
  match r with
  | Thrown => showResult ErrorChecking error s
  | Data [] => showResult AddressNotFound error s
  | Data (h :: _) =>
      let isInDistrict := checkIfInDistrict (lat h) (lon h) in
      let s := if isInDistrict then showResult Yes success s
               else showResult No error s in
      place_marker h isInDistrict s
  end.

(** Lines 297-362, when nothing else happens while the request is out. *)
Definition checkAddress (r : response) (s : page) : page :=
  let (s, sent) := submit s in
  if sent then settle r s else s.

(** Lines 364-382. *)
Definition resetMap (s : page) : page :=
  let (cm, w) :=
    match currentMarker s with
    | Some m => if map s then (None, removeLayer m (widget s))
                else (Some m, widget s)
    | None => (None, widget s)
    end in
  let w := if map s then
             match originalView s with
             | Some v => setView v w
             | None => w
             end
           else w in
  PageState cm (map s) (originalView s) w
            [] (ResultBox false (innerHTML (addressResult s))
                          (colours (addressResult s))) false.

(** What can happen on the page.  A request and its settling are separate
    events, so that anything may happen in between. *)
Inductive event :=
  | Load (found : bool)
  | Type_ (address : text)
  | Submit
  | Settle (r : response)
  | Reset
  | Move (v : view).

Definition step (s : page) (e : event) : page :=
  match e with
  | Load found => loaded found s
  | Type_ address =>
      PageState (currentMarker s) (map s) (originalView s) (widget s)
                address (addressResult s) (resetButton s)
  | Submit => (submit s).1
  | Settle r => settle r s
  | Reset => resetMap s
  | Move v =>
      PageState (currentMarker s) (map s) (originalView s)
                (setView v (widget s))
                (addressInput s) (addressResult s) (resetButton s)
  end.

(** The page as it is served: no marker, [map] and [originalView] null, the
    result box and the reset button hidden. *)
Definition served (v : view) : page :=
  PageState None false None (Leaflet [] v 0) []
            (ResultBox false None None) false.

Definition is_load (e : event) : bool :=
  match e with Load _ => true | _ => false end.

Definition run (events : list event) (s : page) : page :=
  fold_left step events s.

(** The address markers on the map are the current marker, if there is
    one. *)
Definition one_marker (s : page) : Prop :=
  layers (widget s) = match currentMarker s with Some m => [m] | None => [] end.

End Page.

(** * Properties *)

(** ** The lattice model *)

Section GridFacts.
Import Grid.
Implicit Types (s a b : shape) (c : cell).

Lemma elem_of_faces (x a : Z) :
  x ∈ faces a ↔ x = a ∨ (Z.odd a = true ∧ (x = a - 1 ∨ x = a + 1)).
Proof.
  unfold faces. destruct (Z.odd a) eqn:E.
  - rewrite !elem_of_cons, elem_of_nil. naive_solver.
  - rewrite list_elem_of_singleton. naive_solver.
Qed.

Lemma elem_of_cell_closure c c0 :
  c ∈ cell_closure c0 ↔ c.1 ∈ faces c0.1 ∧ c.2 ∈ faces c0.2.
Proof.
  unfold cell_closure. rewrite elem_of_list_to_set, list_elem_of_bind.
  split.
  - intros (x & Hx & Hx1). apply list_elem_of_bind in Hx as (y & Hy & Hy1).
    apply list_elem_of_singleton in Hy. subst c. auto.
  - intros [H1 H2]. exists c.1. split; [|done].
    apply list_elem_of_bind. exists c.2. split; [|done].
    destruct c; apply list_elem_of_singleton; done.
Qed.

Lemma elem_of_closure c s :
  c ∈ closure s ↔ ∃ c0, c0 ∈ s ∧ c ∈ cell_closure c0.
Proof. unfold closure. rewrite elem_of_set_bind. naive_solver. Qed.

Lemma cell_closure_self c : c ∈ cell_closure c.
Proof. apply elem_of_cell_closure. rewrite !elem_of_faces. auto. Qed.

Lemma closure_extensive s : s ⊆ closure s.
Proof. intros c Hc. apply elem_of_closure. eauto using cell_closure_self. Qed.

Lemma closure_mono a b : a ⊆ b → closure a ⊆ closure b.
Proof. intros Hab c. rewrite !elem_of_closure. naive_solver. Qed.

Lemma closure_empty : closure ∅ = ∅.
Proof. apply set_eq. intros c. rewrite elem_of_closure. set_solver. Qed.

Lemma closure_empty_inv s : closure s = ∅ → s = ∅.
Proof. intros E. pose proof (closure_extensive s). set_solver. Qed.

Lemma faces_odd (x a : Z) : x ∈ faces a → Z.odd x = true → x = a.
Proof.
  rewrite elem_of_faces. intros [->|[Ha [->| ->]]] Hx; [done| |].
  - rewrite Z.odd_sub, Ha in Hx. done.
  - rewrite Z.odd_add, Ha in Hx. done.
Qed.

Lemma faces_trans (x y a : Z) : x ∈ faces y → y ∈ faces a → x ∈ faces a.
Proof.
  rewrite !elem_of_faces. intros [->|[Hy Hx]] Hya; [done|].
  destruct Hya as [->|[Ha [->| ->]]]; [auto| |].
  - rewrite Z.odd_sub, Ha in Hy. done.
  - rewrite Z.odd_add, Ha in Hy. done.
Qed.

Lemma closure_idemp s : closure (closure s) = closure s.
Proof.
  apply set_eq. intros c. split; [|apply closure_extensive].
  rewrite !elem_of_closure. intros (c1 & Hc1 & H2).
  apply elem_of_closure in Hc1 as (c0 & H0 & H1).
  exists c0. split; [done|].
  apply elem_of_cell_closure in H1 as [H11 H12].
  apply elem_of_cell_closure in H2 as [H21 H22].
  apply elem_of_cell_closure. eauto using faces_trans.
Qed.

Lemma elem_of_squares c s : c ∈ squares s ↔ is_square c = true ∧ c ∈ s.
Proof. unfold squares. rewrite elem_of_filter. done. Qed.

Lemma squares_closure s : squares (closure s) = squares s.
Proof.
  apply set_eq. intros c. rewrite !elem_of_squares, elem_of_closure.
  split; [|naive_solver eauto using cell_closure_self].
  intros [Hsq (c0 & H0 & Hc)]. split; [done|].
  apply elem_of_cell_closure in Hc as [H1 H2].
  apply andb_true_iff in Hsq as [Ho1 Ho2].
  apply faces_odd in H1; [|done]. apply faces_odd in H2; [|done].
  destruct c, c0; simpl in *; congruence.
Qed.

Lemma squares_idemp s : squares (squares s) = squares s.
Proof. apply set_eq. intros c. rewrite !elem_of_squares. naive_solver. Qed.

Lemma area_closure s : area (closure s) = area s.
Proof. unfold area. by rewrite squares_closure. Qed.

Lemma area_split a b : (area (a ∩ b) + area (a ∖ b) = area a)%nat.
Proof.
  unfold area. rewrite <- size_union.
  - f_equal. apply set_eq. intros c.
    rewrite elem_of_union, !elem_of_squares. set_unfold.
    destruct (decide (c ∈ b)); naive_solver.
  - intros c. rewrite !elem_of_squares. set_solver.
Qed.

Lemma area_zero s : area s = 0%nat ↔ squares s = ∅.
Proof. unfold area. rewrite size_empty_iff. unfold_leibniz. done. Qed.

Lemma buffer0_empty_iff s : buffer0 s = ∅ ↔ squares s = ∅.
Proof.
  unfold buffer0. split.
  - apply closure_empty_inv.
  - intros ->. apply closure_empty.
Qed.

Lemma buffer0_idemp s : buffer0 (buffer0 s) = buffer0 s.
Proof. unfold buffer0. by rewrite squares_closure, squares_idemp. Qed.

Lemma area_buffer0 s : area (buffer0 s) = area s.
Proof. unfold buffer0, area. by rewrite squares_closure, squares_idemp. Qed.

Lemma closure_valid s : is_valid (closure s) = true.
Proof. unfold is_valid. apply bool_decide_eq_true. by rewrite closure_idemp. Qed.

Lemma buffer0_valid s : is_valid (buffer0 s) = true.
Proof. apply closure_valid. Qed.

Lemma geom_type_buffer0 s :
  geom_type (buffer0 s) = "Polygon" ∨ geom_type (buffer0 s) = "MultiPolygon".
Proof.
  unfold geom_type. rewrite buffer0_idemp, bool_decide_eq_true_2 by done.
  destruct (connected _); auto.
Qed.

Lemma geom_type_multi s :
  geom_type s = "MultiPolygon" → s = buffer0 s ∧ squares s ≠ ∅.
Proof.
  unfold geom_type. case_bool_decide as Hreg.
  - destruct (connected (squares s)) eqn:Hc; [done|]. intros _. split; [done|].
    intros E. unfold connected in Hc. rewrite E, elements_empty in Hc. done.
  - repeat case_match; done.
Qed.

Lemma elem_of_edges c s :
  c ∈ edges s ↔ xorb (Z.odd c.1) (Z.odd c.2) = true ∧ c ∈ s.
Proof. unfold edges. rewrite elem_of_filter. done. Qed.

Lemma top_cells_subseteq s : top_cells s ⊆ s.
Proof.
  unfold top_cells. repeat case_bool_decide; [| |done];
    intros c; rewrite ?elem_of_squares, ?elem_of_edges; naive_solver.
Qed.

Lemma top_cells_empty s : top_cells s = ∅ → s = ∅.
Proof. unfold top_cells. repeat case_bool_decide; done. Qed.

(** The centre of a cell lies in that cell. *)
Lemma locate1_half (a : Z) : locate1 (a # 2) = a.
Proof.
  unfold locate1, Qfloor, Qeq_bool. simpl.
  pose proof (Z.div_mod a 2 ltac:(done)) as Hdm.
  pose proof (Z.mod_pos_bound a 2 ltac:(done)) as Hm.
  destruct (_ =? _) eqn:E.
  - apply Z.eqb_eq in E. lia.
  - apply Z.eqb_neq in E. lia.
Qed.

Lemma locate_centre c : locate (Point (c.1 # 2) (c.2 # 2)) = c.
Proof. unfold locate. simpl. rewrite !locate1_half. by destruct c. Qed.

Lemma representative_point_inside s :
  s ≠ ∅ →
  ∃ p, representative_point s = Ok p ∧ contains s p = true.
Proof.
  intros Hne. unfold representative_point.
  destruct (elements (top_cells s)) as [|c l] eqn:E.
  - apply elements_empty_inv, leibniz_equiv in E.
    by apply top_cells_empty in E.
  - assert (c ∈ top_cells s) as Hc.
    { apply elem_of_elements. rewrite E. left. }
    apply top_cells_subseteq in Hc.
    eexists. split; [done|]. unfold contains.
    apply bool_decide_eq_true. by rewrite locate_centre.
Qed.

Lemma centroid_nonempty s : s ≠ ∅ → ∃ p, centroid s = Ok p.
Proof.
  intros Hne. unfold centroid. case_bool_decide as Hz; [|eauto].
  exfalso. apply Hne, top_cells_empty.
  apply leibniz_equiv, size_empty_iff. lia.
Qed.

Lemma elem_of_closure_closed c s :
  is_valid s = true → c ∈ closure s → c ∈ s.
Proof. unfold is_valid. rewrite bool_decide_eq_true. set_solver. Qed.

(** Clipping a valid geometry by a valid geometry gives a valid one. *)
Lemma intersection_valid a b :
  is_valid a = true → is_valid b = true → is_valid (intersection a b) = true.
Proof.
  intros Ha Hb. unfold is_valid, intersection.
  apply bool_decide_eq_true. intros c Hc. apply elem_of_intersection. split.
  - apply (elem_of_closure_closed c a Ha). revert c Hc.
    apply closure_mono. set_solver.
  - apply (elem_of_closure_closed c b Hb). revert c Hc.
    apply closure_mono. set_solver.
Qed.

Lemma difference_empty_iff a b : difference a b = ∅ ↔ a ⊆ b.
Proof.
  unfold difference. split.
  - intros E%closure_empty_inv. set_solver.
  - intros Hab. replace (a ∖ b) with (∅ : shape) by set_solver.
    apply closure_empty.
Qed.

(** A polygon that shares no square with [b] survives the difference whole. *)
Lemma difference_touching a b :
  a = buffer0 a → squares (a ∩ b) = ∅ → difference a b = a.
Proof.
  intros Hreg Hno. unfold difference. apply set_eq. intros c. split.
  - intros Hc. rewrite Hreg. unfold buffer0.
    rewrite <- (closure_idemp (squares a)). fold (buffer0 a). rewrite <- Hreg.
    revert c Hc. apply closure_mono. set_solver.
  - intros Hc. rewrite Hreg in Hc. apply elem_of_closure in Hc as (q & Hq & Hcq).
    apply elem_of_closure. exists q. split; [|done].
    apply elem_of_squares in Hq as [Hsq Hq].
    apply elem_of_difference. split; [done|]. intros Hqb.
    assert (q ∈ squares (a ∩ b)) as Habs.
    { apply elem_of_squares. split; [done|]. set_solver. }
    rewrite Hno in Habs. set_solver.
Qed.

End GridFacts.

(** ** The loops of the overlay pass *)

Section Loops.
Import Overlay.
Context {G J : Type} `{Geometry G J}.
Implicit Types (w : world G J) (c : county G).

(** A loop whose body appends to a list held in the state appends the
    bodies' contributions in row order. *)
Lemma fold_left_appends {S A B : Type} (get : S → list B)
    (step : S → A → S) (f : A → list B) :
  (∀ st a, get (step st a) = get st ++ f a) →
  ∀ l st, get (fold_left step l st) = get st ++ (l ≫= f).
Proof.
  intros Hstep l. induction l as [|a l IH]; intros st; simpl.
  - by rewrite app_nil_r.
  - rewrite IH, Hstep, <- app_assoc. done.
Qed.

(** Membership in the four groups of layers. *)
Lemma elem_of_groups {A : Type} (l1 l2 l3 : list A) (y x : A) :
  x ∈ l1 ++ l2 ++ [y] ++ l3 ↔ x ∈ l1 ∨ x ∈ l2 ∨ x = y ∨ x ∈ l3.
Proof. by rewrite !elem_of_app, list_elem_of_singleton. Qed.

(** A loop whose body never erases a printed line keeps every line a body
    is bound to print. *)
Lemma fold_left_keeps {S A : Type} (out : S → list line)
    (step : S → A → S) :
  (∀ st a, out st ⊆ out (step st a)) →
  ∀ l st, out st ⊆ out (fold_left step l st).
Proof.
  intros Hstep l. induction l as [|a l IH]; intros st; simpl; [done|].
  etrans; [apply (Hstep st a)|apply IH].
Qed.

Lemma fold_left_prints {S A : Type} (out : S → list line)
    (step : S → A → S) (a : A) (x : line) :
  (∀ st b, out st ⊆ out (step st b)) →
  (∀ st, x ∈ out (step st a)) →
  ∀ l st, a ∈ l → x ∈ out (fold_left step l st).
Proof.
  intros Hmono Ha l. induction l as [|b l IH]; intros st Hin; simpl.
  - by apply elem_of_nil in Hin.
  - apply elem_of_cons in Hin as [<-|Hin]; [|by apply IH].
    apply (fold_left_keeps out step Hmono l). apply Ha.
Qed.

Lemma clip_county_frame (ky6_geom : G) st c :
  (clip_county ky6_geom st c).1 = st.1 ++ clip_row ky6_geom c.
Proof.
  unfold clip_county, clip_row. destruct (intersection _ _); [|by rewrite app_nil_r].
  destruct (_ && _); simpl; [done|by rewrite app_nil_r].
Qed.

Lemma clip_county_children (ky6_geom : G) st c :
  children (clip_county ky6_geom st c).2 = children st.2.
Proof. unfold clip_county. repeat case_match; done. Qed.

Lemma clip_county_stdout (ky6_geom : G) st c :
  stdout st.2 ⊆ stdout (clip_county ky6_geom st c).2.
Proof.
  unfold clip_county. repeat case_match; simpl; try done;
    intros x Hx; apply elem_of_app; auto.
Qed.

Lemma add_outside_county_children w c :
  children (add_outside_county w c) = children w ++ outside_layer c.
Proof.
  unfold add_outside_county, outside_layer.
  destruct (geo_interface _); simpl; [done|by rewrite app_nil_r].
Qed.

Lemma add_outside_county_stdout w c :
  stdout w ⊆ stdout (add_outside_county w c).
Proof.
  unfold add_outside_county. case_match; simpl; [done|].
  intros x Hx; apply elem_of_app; auto.
Qed.

Lemma add_outside_part_children (ky6_geom : G) w c :
  children (add_outside_part ky6_geom w c)
  = children w ++ outside_part_layer ky6_geom c.
Proof.
  unfold add_outside_part, outside_part_layer.
  destruct (difference _ _); simpl; [|by rewrite app_nil_r].
  destruct (is_empty _); simpl; [by rewrite app_nil_r|].
  destruct (geo_interface _); simpl; [done|by rewrite app_nil_r].
Qed.

Lemma add_outside_part_stdout (ky6_geom : G) w c :
  stdout w ⊆ stdout (add_outside_part ky6_geom w c).
Proof.
  unfold add_outside_part. repeat case_match; simpl; try done;
    intros x Hx; apply elem_of_app; auto.
Qed.

Lemma add_county_children w c :
  children (add_county w c) = children w ++ county_layers c.
Proof.
  unfold add_county, county_layers, label.
  destruct (is_empty _); simpl; [by rewrite app_nil_r|].
  destruct (geo_interface _); simpl; [|by rewrite app_nil_r].
  destruct (anchor _) as [[p|e]|]; simpl; by rewrite <- ?app_assoc.
Qed.

Lemma add_county_stdout w c : stdout w ⊆ stdout (add_county w c).
Proof.
  unfold add_county. repeat case_match; simpl; try done;
    intros x Hx; apply elem_of_app; auto.
Qed.

(** The clip loop appends the rows' clips in row order and adds nothing to
    the map. *)
Lemma clip_loop_frame (ky6_geom : G) l (st : list (county G) * world G J) :
  (fold_left (clip_county ky6_geom) l st).1 = st.1 ++ (l ≫= clip_row ky6_geom).
Proof. apply (fold_left_appends fst _ _ (clip_county_frame ky6_geom)). Qed.

Lemma clip_loop_children (ky6_geom : G) l (st : list (county G) * world G J) :
  children (fold_left (clip_county ky6_geom) l st).2 = children st.2.
Proof.
  revert st. induction l as [|c l IH]; intros st; simpl; [done|].
  by rewrite IH, clip_county_children.
Qed.

Lemma clip_loop_stdout (ky6_geom : G) l (st : list (county G) * world G J) :
  stdout st.2 ⊆ stdout (fold_left (clip_county ky6_geom) l st).2.
Proof.
  apply (fold_left_keeps (λ st, stdout st.2) _ (clip_county_stdout ky6_geom)).
Qed.

(** What lines 79-97 leave: the rows' clips, repaired, in row order; an
    exception when there is none. *)
Lemma clipped_counties_frame (ky6_geom : G) counties w :
  (clipped_counties ky6_geom counties w).1
  = match intersecting_counties ky6_geom counties ≫= clip_row ky6_geom with
    | [] => Raise no_geometry_column
    | frame => repair frame
    end.
Proof.
  unfold clipped_counties. cbv zeta. rewrite clip_loop_frame. simpl.
  by destruct (_ ≫= _).
Qed.

Lemma clipped_counties_world (ky6_geom : G) counties w :
  (clipped_counties ky6_geom counties w).2
  = (fold_left (clip_county ky6_geom)
       (intersecting_counties ky6_geom counties) ([], w)).2.
Proof. unfold clipped_counties. cbv zeta. by destruct (_.1). Qed.

Lemma clipped_counties_children (ky6_geom : G) counties w :
  children (clipped_counties ky6_geom counties w).2 = children w.
Proof. by rewrite clipped_counties_world, clip_loop_children. Qed.

Lemma clipped_counties_stdout (ky6_geom : G) counties w :
  stdout w ⊆ stdout (clipped_counties ky6_geom counties w).2.
Proof.
  rewrite clipped_counties_world.
  apply (clip_loop_stdout ky6_geom _ ([], w)).
Qed.

(** The repair of line 97 returns exactly when every row's buffer does, and
    then keeps the rows in place with the new geometries. *)
Lemma repair_Ok (frame frame' : list (county G)) :
  repair frame = Ok frame'
  ↔ Forall2 (λ r r', ∃ g, buffer0 (geometry r) = Ok g ∧ r' = with_geometry r g)
            frame frame'.
Proof.
  revert frame'. induction frame as [|r frame IH]; intros frame'; simpl.
  - split.
    + intros [= <-]. constructor.
    + intros ->%Forall2_nil_inv_l. done.
  - split.
    + destruct (buffer0 (geometry r)) as [g|e] eqn:Hg; [|done].
      destruct (repair frame) as [rest|e] eqn:Hrest; [|done].
      intros [= <-]. constructor; [eauto|]. by apply IH.
    + intros (r' & rest & (g & Hg & ->) & Hrest & ->)%Forall2_cons_inv_l.
      rewrite Hg. apply IH in Hrest. by rewrite Hrest.
Qed.

Lemma elem_of_repair (frame frame' : list (county G)) r' :
  repair frame = Ok frame' →
  r' ∈ frame'
  ↔ ∃ r g, r ∈ frame ∧ buffer0 (geometry r) = Ok g ∧ r' = with_geometry r g.
Proof.
  intros Hrep%repair_Ok. induction Hrep as [|r r0 frame frame' (g & Hg & ->) _ IH].
  - split; [by intros ?%elem_of_nil|by intros (? & ? & ?%elem_of_nil & _)].
  - rewrite elem_of_cons, IH. split.
    + intros [->|(r1 & g1 & Hin & Hg1 & ->)].
      * exists r, g. split; [left|done].
      * exists r1, g1. split; [by right|done].
    + intros (r1 & g1 & [->|Hin]%elem_of_cons & Hg1 & ->).
      * left. congruence.
      * right. eauto.
Qed.

(** The first row whose buffer raises ends the repair with that
    exception. *)
Lemma repair_Raise (before after : list (county G)) r e :
  (∀ r0, r0 ∈ before → ∃ g, buffer0 (geometry r0) = Ok g) →
  buffer0 (geometry r) = Raise e →
  repair (before ++ r :: after) = Raise e.
Proof.
  intros Hbefore Hr. induction before as [|r0 before IH]; simpl.
  - by rewrite Hr.
  - destruct (Hbefore r0) as [g ->]; [left|].
    rewrite IH; [done|]. intros r1 Hr1. apply Hbefore. by right.
Qed.

(** The children of the map after the four loops. *)
Lemma add_layers_children ky6 (ky6_geom : G) counties clipped w :
  children (add_layers ky6 ky6_geom counties clipped w)
  = children w
    ++ (outside_counties ky6_geom counties ≫= outside_layer)
    ++ (intersecting_counties ky6_geom counties ≫= outside_part_layer ky6_geom)
    ++ [GeoJsonFrame ky6 Boundary DistrictTitle]
    ++ (clipped ≫= county_layers).
Proof.
  unfold add_layers.
  rewrite (fold_left_appends children _ _ add_county_children). simpl.
  rewrite (fold_left_appends children _ _ (add_outside_part_children ky6_geom)).
  rewrite (fold_left_appends children _ _ add_outside_county_children).
  by rewrite <- !app_assoc.
Qed.

Lemma add_layers_stdout ky6 (ky6_geom : G) counties clipped w :
  stdout w ⊆ stdout (add_layers ky6 ky6_geom counties clipped w).
Proof.
  unfold add_layers.
  etrans; [|apply (fold_left_keeps stdout _ add_county_stdout)]. simpl.
  etrans; [|apply (fold_left_keeps stdout _ (add_outside_part_stdout ky6_geom))].
  apply (fold_left_keeps stdout _ add_outside_county_stdout).
Qed.

End Loops.

(** ** Routing of the counties *)

Section Routing.
Import Overlay.
Context {G J : Type} `{Geometry G J}.

Lemma elem_of_intersecting (ky6_geom : G) counties (c : county G) :
  c ∈ intersecting_counties ky6_geom counties
  ↔ intersects (geometry c) ky6_geom = true ∧ c ∈ ky_counties counties.
Proof. unfold intersecting_counties. by rewrite list_elem_of_filter. Qed.

Lemma elem_of_outside (ky6_geom : G) counties (c : county G) :
  c ∈ outside_counties ky6_geom counties
  ↔ intersects (geometry c) ky6_geom = false ∧ c ∈ ky_counties counties.
Proof.
  unfold outside_counties. rewrite list_elem_of_filter, negb_true_iff. done.
Qed.

(** C10: every in-state county goes to exactly one of the two paths, decided
    by the intersects test against the Region: together the two filtered
    frames are the in-state frame, row for row, and a row is in the
    intersecting frame when the test holds and in the outside frame when it
    does not. *)
Theorem routing_partition (ky6_geom : G) (counties : list (county G)) :
  (intersecting_counties ky6_geom counties
     ++ outside_counties ky6_geom counties) ≡ₚ ky_counties counties
  ∧ ∀ c, c ∈ ky_counties counties →
      (intersects (geometry c) ky6_geom = true
       ∧ c ∈ intersecting_counties ky6_geom counties
       ∧ c ∉ outside_counties ky6_geom counties)
      ∨ (intersects (geometry c) ky6_geom = false
         ∧ (c ∉ intersecting_counties ky6_geom counties)
         ∧ c ∈ outside_counties ky6_geom counties).
Proof.
  split.
  - unfold intersecting_counties, outside_counties.
    rewrite <- (filter_app_complement
      (λ c : county G, intersects (geometry c) ky6_geom = true)
      (ky_counties counties)) at 3.
    f_equiv. apply reflexive_eq, list_filter_iff. intros c.
    rewrite negb_true_iff, not_true_iff_false. done.
  - intros c Hc. rewrite elem_of_intersecting, elem_of_outside.
    destruct (intersects (geometry c) ky6_geom); [left|right]; naive_solver.
Qed.

End Routing.

(** Membership of a named row in a frame written out as a list. *)
Ltac find_row := solve [repeat first [left | right]].

(** Membership of a named row in [ky_counties]: its state code is "21" and
    it is one of the rows. *)
Ltac in_state := apply list_elem_of_filter; split; [reflexivity | find_row].

(** ** The closing list of names *)

Section ListingFacts.
Import Overlay.

Lemma elem_of_unique (x : string) (l : list string) : x ∈ unique l ↔ x ∈ l.
Proof.
  induction l as [|y l IH]; simpl; [done|].
  rewrite !elem_of_cons, list_elem_of_filter, IH.
  destruct (decide (x = y)); naive_solver.
Qed.

Lemma NoDup_unique (l : list string) : NoDup (unique l).
Proof.
  induction l as [|y l IH]; simpl; [constructor|].
  apply NoDup_cons. split.
  - rewrite list_elem_of_filter. naive_solver.
  - by apply NoDup_filter.
Qed.

#[local] Instance str_le_total : Total str_le.
Proof. intros a b. apply Strings.String.leb_total. Qed.

Lemma listing_names {G : Type} (clipped : list (county G)) (n : string) :
  n ∈ listing clipped ↔ ∃ c, c ∈ clipped ∧ NAME c = n.
Proof.
  unfold listing.
  rewrite merge_sort_Permutation, elem_of_unique, list_elem_of_fmap.
  naive_solver.
Qed.

Lemma listing_sorted {G : Type} (clipped : list (county G)) :
  Sorted str_le (listing clipped).
Proof. apply (Sorted_merge_sort str_le). Qed.

Lemma listing_NoDup {G : Type} (clipped : list (county G)) :
  NoDup (listing clipped).
Proof. unfold listing. rewrite merge_sort_Permutation. apply NoDup_unique. Qed.

End ListingFacts.

(** ** The run as a whole *)

Section Composition.
Import Overlay Composer.
Context {G J : Type} `{Geometry G J}.
Implicit Types (w : world G J) (c : county G).

(** The state the script is in when line 57 is reached. *)
#[local] Abbreviation after_download fs :=
  (World (G := G) (J := J) []
     (DataFiles <$> (Files.download_and_extract_data fs).2)).

(** A run that found its district, up to the repair of line 97 and from
    there on. *)
Lemma create_ky6_map_found fs (districts : list (district G))
    (counties : list (county G)) d rest :
  ky6_district districts = d :: rest →
  create_ky6_map fs (Ok districts) (Ok counties)
  = let cl := clipped_counties (dgeometry d) counties (after_download fs) in
    match cl.1 with
    | Raise e => (Raise e, stdout cl.2)
    | Ok clipped =>
        let w := add_layers (d :: rest) (dgeometry d) counties clipped cl.2 in
        (Ok (Some (children w)),
         stdout w ++ [MapCreated; CountiesHeading]
           ++ (CountyListed <$> listing clipped))
    end.
Proof. intros Hd. unfold create_ky6_map. by rewrite Hd. Qed.

(** The lines of a run that got through the repair: those of the loops,
    then the closing summary. *)
Lemma create_ky6_map_stdout fs (districts : list (district G))
    (counties : list (county G)) d rest frame :
  ky6_district districts = d :: rest →
  (clipped_counties (dgeometry d) counties (after_download fs)).1 = Ok frame →
  (create_ky6_map fs (Ok districts) (Ok counties)).2
  = stdout (add_layers (d :: rest) (dgeometry d) counties frame
              (clipped_counties (dgeometry d) counties (after_download fs)).2)
    ++ [MapCreated; CountiesHeading] ++ (CountyListed <$> listing frame).
Proof.
  intros Hd Hframe. rewrite (create_ky6_map_found _ _ _ _ _ Hd). cbv zeta.
  by rewrite Hframe.
Qed.

(** The layers of a run that got through the repair. *)
Lemma create_ky6_map_layers fs (districts : list (district G))
    (counties : list (county G)) d rest frame :
  ky6_district districts = d :: rest →
  (clipped_counties (dgeometry d) counties (after_download fs)).1 = Ok frame →
  (create_ky6_map fs (Ok districts) (Ok counties)).1
  = Ok (Some ((outside_counties (dgeometry d) counties ≫= outside_layer)
          ++ (intersecting_counties (dgeometry d) counties
                ≫= outside_part_layer (dgeometry d))
          ++ [GeoJsonFrame (d :: rest) Boundary DistrictTitle]
          ++ (frame ≫= county_layers))).
Proof.
  intros Hd Hframe. rewrite (create_ky6_map_found _ _ _ _ _ Hd). cbv zeta.
  rewrite Hframe. cbn [fst]. do 2 f_equal.
  by rewrite add_layers_children, clipped_counties_children.
Qed.

(** The same run, with what it printed. *)
Lemma create_ky6_map_pair fs (districts : list (district G))
    (counties : list (county G)) d rest frame :
  ky6_district districts = d :: rest →
  (clipped_counties (dgeometry d) counties (after_download fs)).1 = Ok frame →
  create_ky6_map fs (Ok districts) (Ok counties)
  = (Ok (Some ((outside_counties (dgeometry d) counties ≫= outside_layer)
          ++ (intersecting_counties (dgeometry d) counties
                ≫= outside_part_layer (dgeometry d))
          ++ [GeoJsonFrame (d :: rest) Boundary DistrictTitle]
          ++ (frame ≫= county_layers))),
     (create_ky6_map fs (Ok districts) (Ok counties)).2).
Proof.
  intros Hd Hframe.
  rewrite <- (create_ky6_map_layers _ _ _ _ _ _ Hd Hframe).
  by destruct (create_ky6_map _ _ _).
Qed.

(** A run that returns a map got through the repair. *)
Lemma create_ky6_map_returns fs (districts : list (district G))
    (counties : list (county G)) m :
  (create_ky6_map fs (Ok districts) (Ok counties)).1 = Ok (Some m) →
  ∃ d rest frame,
    ky6_district districts = d :: rest
    ∧ (clipped_counties (dgeometry d) counties (after_download fs)).1 = Ok frame.
Proof.
  destruct (ky6_district districts) as [|d rest] eqn:Hd.
  - unfold create_ky6_map. rewrite Hd. done.
  - rewrite (create_ky6_map_found _ _ _ _ _ Hd). cbv zeta.
    destruct (clipped_counties _ _ _).1 as [frame|e] eqn:Hframe; [|done].
    intros _. eauto.
Qed.

(** A run whose clip stage raises ends with that exception. *)
Lemma create_ky6_map_raises fs (districts : list (district G))
    (counties : list (county G)) d rest e :
  ky6_district districts = d :: rest →
  (clipped_counties (dgeometry d) counties (after_download fs)).1 = Raise e →
  (create_ky6_map fs (Ok districts) (Ok counties)).1 = Raise e.
Proof.
  intros Hd Hframe. rewrite (create_ky6_map_found _ _ _ _ _ Hd). cbv zeta.
  by rewrite Hframe.
Qed.

(** What the run has printed by the time the clip loop is over stays
    printed. *)
Lemma create_ky6_map_keeps fs (districts : list (district G))
    (counties : list (county G)) d rest x :
  ky6_district districts = d :: rest →
  x ∈ stdout (clipped_counties (dgeometry d) counties (after_download fs)).2 →
  x ∈ (create_ky6_map fs (Ok districts) (Ok counties)).2.
Proof.
  intros Hd Hx. rewrite (create_ky6_map_found _ _ _ _ _ Hd). cbv zeta.
  destruct (clipped_counties _ _ _).1 as [frame|e]; cbn [snd]; [|done].
  apply elem_of_app. left. by apply add_layers_stdout.
Qed.

Lemma elem_of_outside_layer c x :
  x ∈ outside_layer c
  ↔ ∃ j, geo_interface (geometry c) = Ok j
       ∧ x = GeoJson j Excluded (OutsideDistrict (NAME c)).
Proof.
  unfold outside_layer. destruct (geo_interface _) as [j|e].
  - rewrite list_elem_of_singleton. naive_solver.
  - rewrite elem_of_nil. naive_solver.
Qed.

Lemma elem_of_outside_part_layer (ky6_geom : G) c x :
  x ∈ outside_part_layer ky6_geom c
  ↔ ∃ g j, difference (geometry c) ky6_geom = Ok g
         ∧ is_empty g = false
         ∧ geo_interface g = Ok j
         ∧ x = GeoJson j Excluded (OutsideDistrict (NAME c)).
Proof.
  unfold outside_part_layer.
  destruct (difference _ _) as [g|e].
  2: { split; [by intros ?%elem_of_nil|by intros (? & ? & ? & _)]. }
  destruct (is_empty g) eqn:Hg.
  { split; [by intros ?%elem_of_nil|].
    intros (g0 & j & [= <-] & ? & _). congruence. }
  destruct (geo_interface g) as [j|e] eqn:Hj.
  2: { split; [by intros ?%elem_of_nil|].
       intros (g0 & j & [= <-] & _ & ? & _). congruence. }
  rewrite list_elem_of_singleton. split.
  - intros ->. eauto 10.
  - intros (g0 & j0 & [= <-] & _ & ? & ->). congruence.
Qed.

Lemma elem_of_clip_row (ky6_geom : G) c r :
  r ∈ clip_row ky6_geom c
  ↔ ∃ g, intersection (geometry c) ky6_geom = Ok g
       ∧ is_empty g = false
       ∧ is_valid g = true
       ∧ r = with_geometry c g.
Proof.
  unfold clip_row.
  destruct (intersection _ _) as [g|e].
  2: { split; [by intros ?%elem_of_nil|by intros (? & ? & _)]. }
  destruct (is_empty g) eqn:Hg; simpl.
  { split; [by intros ?%elem_of_nil|].
    intros (g0 & [= <-] & ? & _). congruence. }
  destruct (is_valid g) eqn:Hv.
  2: { split; [by intros ?%elem_of_nil|].
       intros (g0 & [= <-] & _ & ? & _). congruence. }
  rewrite list_elem_of_singleton. split.
  - intros ->. eauto 10.
  - intros (g0 & [= <-] & _ & _ & ->). done.
Qed.

Lemma elem_of_label c x :
  x ∈ label c
  ↔ ∃ p, anchor (geometry c) = Some (Ok p) ∧ x = Marker (py p, px p) (NAME c).
Proof.
  unfold label. destruct (anchor _) as [[p|e]|];
    rewrite ?elem_of_nil, ?list_elem_of_singleton; naive_solver.
Qed.

Lemma elem_of_county_layers c x :
  x ∈ county_layers c
  ↔ is_empty (geometry c) = false
    ∧ ∃ j, geo_interface (geometry c) = Ok j
           ∧ (x = GeoJson j Included (CountyName (NAME c)) ∨ x ∈ label c).
Proof.
  unfold county_layers.
  destruct (is_empty _); [rewrite elem_of_nil; naive_solver|].
  destruct (geo_interface _) as [j|e]; [|rewrite elem_of_nil; naive_solver].
  rewrite elem_of_cons. naive_solver.
Qed.

(** The rows of the frame the clip stage leaves: each is the kept,
    repaired clip of an intersecting county. *)
Lemma elem_of_clipped_frame (ky6_geom : G) counties w frame r :
  (clipped_counties ky6_geom counties w).1 = Ok frame →
  r ∈ frame
  ↔ ∃ c g g', c ∈ intersecting_counties ky6_geom counties
            ∧ intersection (geometry c) ky6_geom = Ok g
            ∧ is_empty g = false
            ∧ is_valid g = true
            ∧ buffer0 g = Ok g'
            ∧ r = with_geometry c g'.
Proof.
  rewrite clipped_counties_frame.
  destruct (_ ≫= _) as [|r0 rows] eqn:Hrows; [done|].
  intros Hrep. rewrite (elem_of_repair _ _ _ Hrep), <- Hrows. split.
  - intros (r1 & g' & (c & (g & Hg & Hne & Hv & ->)%elem_of_clip_row & Hc)%list_elem_of_bind
            & Hg' & ->).
    exists c, g, g'. done.
  - intros (c & g & g' & Hc & Hg & Hne & Hv & Hg' & ->).
    exists (with_geometry c g), g'. split; [|done].
    apply list_elem_of_bind. exists c. split; [|done].
    apply elem_of_clip_row. eauto 10.
Qed.

(** The clip stage returns a frame as soon as one clip is kept and every
    kept clip is repaired. *)
Lemma clipped_counties_Ok (ky6_geom : G) counties w c g :
  c ∈ intersecting_counties ky6_geom counties →
  intersection (geometry c) ky6_geom = Ok g →
  is_empty g = false →
  is_valid g = true →
  (∀ g0 : G, ∃ g1, buffer0 g0 = Ok g1) →
  ∃ frame, (clipped_counties ky6_geom counties w).1 = Ok frame.
Proof.
  intros Hc Hg Hne Hv Hbuf. rewrite clipped_counties_frame.
  assert (with_geometry c g ∈ intersecting_counties ky6_geom counties
                                ≫= clip_row ky6_geom) as Hin.
  { apply list_elem_of_bind. exists c. split; [|done].
    apply elem_of_clip_row. eauto 10. }
  destruct (_ ≫= _) as [|r0 rows]; [by apply elem_of_nil in Hin|].
  clear Hin. generalize (r0 :: rows). intros l.
  induction l as [|r l [frame IH]]; simpl; [eauto|].
  destruct (Hbuf (geometry r)) as [g1 ->]. rewrite IH. eauto.
Qed.

(** Where a layer of the returned map comes from. *)
Lemma elem_of_map fs (districts : list (district G)) counties m x :
  (create_ky6_map fs (Ok districts) (Ok counties)).1 = Ok (Some m) →
  x ∈ m ↔
  ∃ d rest frame,
    ky6_district districts = d :: rest
    ∧ (clipped_counties (dgeometry d) counties (after_download fs)).1 = Ok frame
    ∧ ((∃ c, c ∈ outside_counties (dgeometry d) counties ∧ x ∈ outside_layer c)
       ∨ (∃ c, c ∈ intersecting_counties (dgeometry d) counties
               ∧ x ∈ outside_part_layer (dgeometry d) c)
       ∨ x = GeoJsonFrame (d :: rest) Boundary DistrictTitle
       ∨ (∃ r, r ∈ frame ∧ x ∈ county_layers r)).
Proof.
  intros Hm.
  destruct (create_ky6_map_returns _ _ _ _ Hm) as (d & rest & frame & Hd & Hframe).
  rewrite (create_ky6_map_layers _ _ _ _ _ _ Hd Hframe) in Hm.
  injection Hm as <-.
  split.
  - intros Hx%elem_of_groups. rewrite !list_elem_of_bind in Hx.
    exists d, rest, frame. do 2 (split; [done|]).
    destruct Hx as [(c & ? & ?)|[(c & ? & ?)|[->|(r & ? & ?)]]]; eauto 10.
  - intros (d' & rest' & frame' & Hd' & Hframe' & Hx).
    rewrite Hd in Hd'. injection Hd' as <- <-.
    rewrite Hframe in Hframe'. injection Hframe' as <-.
    apply elem_of_groups. rewrite !list_elem_of_bind.
    destruct Hx as [(c & ? & ?)|[(c & ? & ?)|[->|(r & ? & ?)]]]; eauto 10.
Qed.

(** What the run prints: a raised clip, a raised difference, an empty
    repaired row, the names of the frame. *)
Lemma clip_loop_prints (ky6_geom : G) counties w c e :
  c ∈ intersecting_counties ky6_geom counties →
  intersection (geometry c) ky6_geom = Raise e →
  ErrorProcessing (NAME c) e ∈ stdout (clipped_counties ky6_geom counties w).2.
Proof.
  intros Hc He. rewrite clipped_counties_world.
  apply (fold_left_prints (λ st : list (county G) * world G J, stdout st.2)
           (clip_county ky6_geom) c); [apply clip_county_stdout| |done].
  intros st. unfold clip_county. rewrite He. simpl.
  apply elem_of_app. right. left.
Qed.

Lemma add_layers_prints_part ky6 (ky6_geom : G) counties clipped w c e :
  c ∈ intersecting_counties ky6_geom counties →
  difference (geometry c) ky6_geom = Raise e →
  ErrorAddingOutsidePart (NAME c) e
    ∈ stdout (add_layers ky6 ky6_geom counties clipped w).
Proof.
  intros Hc He. unfold add_layers.
  apply (fold_left_keeps stdout _ add_county_stdout). simpl.
  apply (fold_left_prints stdout (add_outside_part ky6_geom) c);
    [apply add_outside_part_stdout| |done].
  intros w'. unfold add_outside_part. rewrite He. simpl.
  apply elem_of_app. right. left.
Qed.

Lemma add_layers_prints_skip ky6 (ky6_geom : G) counties clipped w c :
  c ∈ clipped →
  is_empty (geometry c) = true →
  SkippingInvalidGeometry (NAME c)
    ∈ stdout (add_layers ky6 ky6_geom counties clipped w).
Proof.
  intros Hc He. unfold add_layers.
  apply (fold_left_prints stdout add_county c); [apply add_county_stdout| |done].
  intros w'. unfold add_county. rewrite He. simpl.
  apply elem_of_app. right. left.
Qed.

(** The same, for the run. *)
Lemma run_prints_skip fs (districts : list (district G)) counties d rest frame r :
  ky6_district districts = d :: rest →
  (clipped_counties (dgeometry d) counties (after_download fs)).1 = Ok frame →
  r ∈ frame →
  is_empty (geometry r) = true →
  SkippingInvalidGeometry (NAME r)
    ∈ (create_ky6_map fs (Ok districts) (Ok counties)).2.
Proof.
  intros Hd Hframe Hr He. rewrite (create_ky6_map_stdout _ _ _ _ _ _ Hd Hframe).
  apply elem_of_app. left. by apply add_layers_prints_skip.
Qed.

Lemma run_prints_part fs (districts : list (district G)) counties d rest frame c e :
  ky6_district districts = d :: rest →
  (clipped_counties (dgeometry d) counties (after_download fs)).1 = Ok frame →
  c ∈ intersecting_counties (dgeometry d) counties →
  difference (geometry c) (dgeometry d) = Raise e →
  ErrorAddingOutsidePart (NAME c) e
    ∈ (create_ky6_map fs (Ok districts) (Ok counties)).2.
Proof.
  intros Hd Hframe Hc He. rewrite (create_ky6_map_stdout _ _ _ _ _ _ Hd Hframe).
  apply elem_of_app. left. by apply add_layers_prints_part.
Qed.

Lemma run_lists fs (districts : list (district G)) counties d rest frame r :
  ky6_district districts = d :: rest →
  (clipped_counties (dgeometry d) counties (after_download fs)).1 = Ok frame →
  r ∈ frame →
  CountyListed (NAME r) ∈ (create_ky6_map fs (Ok districts) (Ok counties)).2.
Proof.
  intros Hd Hframe Hr. rewrite (create_ky6_map_stdout _ _ _ _ _ _ Hd Hframe).
  rewrite !elem_of_app. right. right.
  apply list_elem_of_fmap. exists (NAME r). split; [done|].
  apply listing_names. eauto.
Qed.

End Composition.

(** ** The run against the design *)

Section AgainstDesign.
Import Overlay Composer.
Context {G J : Type} `{Geometry G J}.
Implicit Types (w : world G J) (c : county G).

#[local] Abbreviation after_download fs :=
  (World (G := G) (J := J) []
     (DataFiles <$> (Files.download_and_extract_data fs).2)).












(** C6: the handler of line 89 does not keep a failed clip from ending the
    run.  When the intersection raises for the one county of the state that
    meets the Region, the line of the handler is printed, the frame is left
    without a row, and the run ends with the exception of lines 94-97: no
    map is returned although the district was found. *)
Theorem lone_clip_failure_ends_run fs (districts : list (district G))
    (counties : list (county G)) d rest c e :
  ky6_district districts = d :: rest →
  c ∈ ky_counties counties →
  (∀ c', c' ∈ ky_counties counties →
         intersects (geometry c') (dgeometry d) = true → c' = c) →
  intersects (geometry c) (dgeometry d) = true →
  intersection (geometry c) (dgeometry d) = Raise e →
  (create_ky6_map fs (Ok districts) (Ok counties)).1 = Raise no_geometry_column
  ∧ ErrorProcessing (NAME c) e
      ∈ (create_ky6_map fs (Ok districts) (Ok counties)).2.
Proof.
  intros Hd Hc Hlone Hint He. split.
  - apply (create_ky6_map_raises _ _ _ _ _ _ Hd).
    rewrite clipped_counties_frame.
    assert (intersecting_counties (dgeometry d) counties
              ≫= clip_row (dgeometry d) = []) as ->; [|done].
    destruct (_ ≫= _) as [|r rows] eqn:Hrows; [done|].
    assert (r ∈ intersecting_counties (dgeometry d) counties
                  ≫= clip_row (dgeometry d)) as Hr by (rewrite Hrows; left).
    apply list_elem_of_bind in Hr as (c' & Hr & [Hint' Hc']%elem_of_intersecting).
    rewrite (Hlone c' Hc' Hint') in Hr.
    apply elem_of_clip_row in Hr as (g & Hg & _). congruence.
  - apply (create_ky6_map_keeps _ _ _ _ _ _ Hd).
    apply clip_loop_prints; [|done]. by apply elem_of_intersecting.
Qed.


(** Names tell the rows of a table apart when no name is repeated. *)
Lemma NoDup_fmap_eq {A B : Type} (f : A → B) (l : list A) (x y : A) :
  NoDup (f <$> l) → x ∈ l → y ∈ l → f x = f y → x = y.
Proof.
  induction l as [|a l IH]; [by intros _ ?%elem_of_nil|].
  rewrite fmap_cons, NoDup_cons, !elem_of_cons.
  intros [Ha Hl] [->|Hx] [->|Hy] Hf; [done| | |by apply IH].
  - destruct Ha. rewrite Hf. apply list_elem_of_fmap. eauto.
  - destruct Ha. rewrite <- Hf. apply list_elem_of_fmap. eauto.
Qed.

(** C3, amended: with county names that tell the rows of the state apart,
    a county on the outside (disjoint) path has no row in the clipped
    frame.  The converse needs the library to hand back a usable clip: if,
    whenever the county meets the Region, its intersection returns a kept
    geometry whose repair is not empty, then the county is on the outside
    path exactly when the frame holds no clip for it, or only empty ones.
    (A county whose clip raises, or repairs to nothing, has no clipped-in
    geometry and is not on the outside path.) *)
Theorem disjoint_iff_no_clip (region : G) (counties : list (county G))
    c w frame :
  NoDup (NAME <$> ky_counties counties) →
  c ∈ ky_counties counties →
  (clipped_counties region counties w).1 = Ok frame →
  (c ∈ outside_counties region counties →
   ∀ r, r ∈ frame → NAME r ≠ NAME c)
  ∧ ((intersects (geometry c) region = true →
      ∃ g g', intersection (geometry c) region = Ok g
              ∧ is_empty g = false
              ∧ is_valid g = true
              ∧ buffer0 g = Ok g'
              ∧ is_empty g' = false) →
     (c ∈ outside_counties region counties
      ↔ ∀ r, r ∈ frame → NAME r = NAME c → is_empty (geometry r) = true)).
Proof.
  intros Hnames Hc Hframe.
  assert (c ∈ outside_counties region counties →
          ∀ r, r ∈ frame → NAME r ≠ NAME c) as Hnone.
  { intros [Hno _]%elem_of_outside r Hr Hname.
    apply (elem_of_clipped_frame _ _ _ _ _ Hframe) in Hr
      as (c' & g & g' & [Hint Hc']%elem_of_intersecting & _ & _ & _ & _ & ->).
    simpl in Hname.
    rewrite (NoDup_fmap_eq NAME _ c' c Hnames Hc' Hc Hname) in Hint.
    congruence. }
  split; [done|]. intros Husable. split.
  - intros Hout r Hr Hname. by destruct (Hnone Hout r Hr).
  - intros Hempty. apply elem_of_outside. split; [|done].
    destruct (intersects (geometry c) region) eqn:Hint; [|done].
    destruct (Husable eq_refl) as (g & g' & Hg & Hne & Hv & Hg' & Hne').
    assert (with_geometry c g' ∈ frame) as Hrow.
    { apply (elem_of_clipped_frame _ _ _ _ _ Hframe).
      exists c, g, g'. split; [by apply elem_of_intersecting|done]. }
    apply Hempty in Hrow; [|done]. simpl in Hrow. congruence.
Qed.

End AgainstDesign.

(** ** Labels of the included layer *)

Section Labels.
Import Overlay.
Context {G J : Type} `{Geometry G J}.

(** What the script relies on from the library after line 97: a repaired
    geometry is a polygon or a multi-polygon, and the two anchor operations
    return on a geometry that is not empty. *)
Hypothesis buffer0_polygonal : ∀ g g' : G,
  buffer0 g = Ok g' →
  geom_type g' = "Polygon" ∨ geom_type g' = "MultiPolygon".
Hypothesis centroid_returns : ∀ g : G,
  is_empty g = false → ∃ p, centroid g = Ok p.
Hypothesis representative_point_returns : ∀ g : G,
  is_empty g = false → ∃ p, representative_point g = Ok p.



End Labels.

(** ** The overlay on the lattice library *)

Section TracedOverlay.
Import Grid Overlay Lattice.
Implicit Types (a b region : traced) (c : county traced).

#[local] Abbreviation after_download fs :=
  (World (G := traced) (J := shape) []
     (DataFiles <$> (Files.download_and_extract_data fs).2)).

Lemma valid_sound a :
  Overlay.is_valid a = true → sound a = true ∧ Grid.is_valid (outline a) = true.
Proof. simpl. by intros ?%andb_true_iff. Qed.

Lemma intersection_sound a b :
  sound a = true → sound b = true →
  Overlay.intersection a b
  = Ok (ring (Grid.intersection (outline a) (outline b))).
Proof. intros Ha Hb. simpl. unfold overlay. by rewrite Ha, Hb. Qed.

Lemma difference_sound a b :
  sound a = true → sound b = true →
  Overlay.difference a b = Ok (ring (Grid.difference (outline a) (outline b))).
Proof. intros Ha Hb. simpl. unfold overlay. by rewrite Ha, Hb. Qed.

Lemma intersection_Ok_inv a b g :
  Overlay.intersection a b = Ok g →
  sound a = true ∧ sound b = true
  ∧ g = ring (Grid.intersection (outline a) (outline b)).
Proof.
  simpl. unfold overlay. destruct (sound a), (sound b); simpl; try done.
  by intros [= <-].
Qed.

Lemma difference_Ok_inv a b g :
  Overlay.difference a b = Ok g →
  sound a = true ∧ sound b = true
  ∧ g = ring (Grid.difference (outline a) (outline b)).
Proof.
  simpl. unfold overlay. destruct (sound a), (sound b); simpl; try done.
  by intros [= <-].
Qed.

Lemma intersects_nonempty (s t : shape) :
  Grid.intersects s t = true ↔ Grid.intersection s t ≠ ∅.
Proof.
  unfold Grid.intersects, Grid.intersection.
  rewrite negb_true_iff, bool_decide_eq_false. done.
Qed.

Lemma is_empty_false (s : shape) : Grid.is_empty s = false ↔ s ≠ ∅.
Proof. unfold Grid.is_empty. by rewrite bool_decide_eq_false. Qed.

Lemma is_empty_true (s : shape) : Grid.is_empty s = true ↔ s = ∅.
Proof. unfold Grid.is_empty. by rewrite bool_decide_eq_true. Qed.

Lemma squares_empty : squares (∅ : shape) = ∅.
Proof. apply set_eq. intros c. rewrite elem_of_squares. set_solver. Qed.

Lemma area_positive (s : shape) : area s ≠ 0%nat → s ≠ ∅.
Proof. intros Hs ->. apply Hs. apply area_zero, squares_empty. Qed.

Lemma geom_type_areal (s : shape) :
  Grid.geom_type s = "Polygon" ∨ Grid.geom_type s = "MultiPolygon" →
  s = Grid.buffer0 s.
Proof.
  unfold Grid.geom_type. destruct (bool_decide (s = Grid.buffer0 s)) eqn:Hs.
  - intros _. by apply bool_decide_eq_true in Hs.
  - repeat case_match; intros [?|?]; discriminate.
Qed.

Lemma difference_no_common_area (s t : shape) :
  area (Grid.intersection (Grid.difference s t) t) = 0%nat.
Proof.
  apply area_zero, set_eq. intros q. split; [|set_solver].
  intros [Hsq Hq]%elem_of_squares.
  apply elem_of_intersection in Hq as [Hq Hb].
  assert (q ∈ squares (closure (s ∖ t))) as Hq'.
  { by apply elem_of_squares. }
  rewrite squares_closure in Hq'. apply elem_of_squares in Hq' as [_ Hq'].
  set_solver.
Qed.

Lemma buffer0_intersection_subseteq (s t : shape) :
  Grid.is_valid t = true → Grid.buffer0 (Grid.intersection s t) ⊆ t.
Proof.
  intros Hb c Hc. apply (elem_of_closure_closed c t Hb).
  revert c Hc. apply closure_mono. intros c. rewrite elem_of_squares.
  unfold Grid.intersection. set_solver.
Qed.

Lemma area_difference (s t : shape) :
  area (Grid.difference s t) = area (s ∖ t).
Proof. apply area_closure. Qed.

(** The rows of the clipped frame on the lattice. *)
Lemma elem_of_traced_frame region counties w frame r :
  (clipped_counties region counties w).1 = Ok frame →
  r ∈ frame
  ↔ ∃ c, c ∈ intersecting_counties region counties
         ∧ sound (geometry c) = true
         ∧ sound region = true
         ∧ Grid.is_valid (Grid.intersection (outline (geometry c))
                                            (outline region)) = true
         ∧ r = with_geometry c
                 (ring (Grid.buffer0 (Grid.intersection (outline (geometry c))
                                                        (outline region)))).
Proof.
  intros Hframe. rewrite (elem_of_clipped_frame _ _ _ _ _ Hframe). split.
  - intros (c & g & g' & Hc & Hg & Hne & Hv & Hg' & ->).
    apply intersection_Ok_inv in Hg as (Hsc & Hsr & ->).
    injection Hg' as <-. apply valid_sound in Hv as [_ Hv].
    exists c. done.
  - intros (c & Hc & Hsc & Hsr & Hv & ->).
    exists c, (ring (Grid.intersection (outline (geometry c)) (outline region))).
    eexists. split; [done|]. split; [by apply intersection_sound|].
    split.
    { apply is_empty_false, intersects_nonempty.
      by apply elem_of_intersecting in Hc as [Hc _]. }
    split; [simpl; by rewrite Hv|]. split; [reflexivity|done].
Qed.

(** On valid geometries every intersecting county has its row: the
    branches of lines 88 and 90 are not taken. *)
Lemma valid_county_row region counties w c :
  c ∈ intersecting_counties region counties →
  Overlay.is_valid (geometry c) = true →
  Overlay.is_valid region = true →
  ∃ frame,
    (clipped_counties region counties w).1 = Ok frame
    ∧ with_geometry c
        (ring (Grid.buffer0 (Grid.intersection (outline (geometry c))
                                               (outline region)))) ∈ frame.
Proof.
  intros Hc [Hsc Hvc]%valid_sound [Hsr Hvr]%valid_sound.
  assert (Grid.is_valid (Grid.intersection (outline (geometry c))
                                           (outline region)) = true) as Hv.
  { by apply intersection_valid. }
  assert (Overlay.intersection (geometry c) region
          = Ok (ring (Grid.intersection (outline (geometry c)) (outline region))))
    as Hg by (by apply intersection_sound).
  assert (Overlay.is_empty
            (ring (Grid.intersection (outline (geometry c)) (outline region)))
          = false) as Hne.
  { apply is_empty_false, intersects_nonempty.
    by apply elem_of_intersecting in Hc as [Hc _]. }
  assert (Overlay.is_valid
            (ring (Grid.intersection (outline (geometry c)) (outline region)))
          = true) as Hv' by (simpl; by rewrite Hv).
  assert (∀ g0 : traced, ∃ g1, Overlay.buffer0 g0 = Ok g1) as Hbuf.
  { intros g0. eexists. reflexivity. }
  destruct (clipped_counties_Ok region counties w c _ Hc Hg Hne Hv' Hbuf)
    as [frame Hframe].
  exists frame. split; [done|].
  apply (elem_of_traced_frame _ _ _ _ _ Hframe). exists c. done.
Qed.

(** A repaired clip that is not empty has an anchor that resolves. *)
Lemma anchor_buffer0 (s : shape) :
  Grid.buffer0 s ≠ ∅ → ∃ p, anchor (ring (Grid.buffer0 s)) = Some (Ok p).
Proof.
  intros Hne. unfold anchor. simpl.
  destruct (geom_type_buffer0 s) as [Hty|Hty]; rewrite Hty; simpl.
  - destruct (centroid_nonempty _ Hne) as [p ->]. eauto.
  - destruct (representative_point_inside _ Hne) as (p & -> & _). eauto.
Qed.

(** C4: a county with a valid geometry that touches a valid Region on the
    boundary only is not on the outside (disjoint) path.  The run returns a
    map, prints for the county the line of the empty-geometry skip, and
    names it in the closing list of the counties of the district; when the
    county is a polygon, its whole geometry is drawn as excluded. *)
Theorem touching_county_enters_district (fs : Files.store)
    (districts : list (district traced))
    (counties : list (county traced)) d rest c :
  ky6_district districts = d :: rest →
  c ∈ ky_counties counties →
  Overlay.is_valid (geometry c) = true →
  Overlay.is_valid (dgeometry d) = true →
  touches_only (outline (geometry c)) (outline (dgeometry d)) →
  (c ∉ outside_counties (dgeometry d) counties)
  ∧ c ∈ intersecting_counties (dgeometry d) counties
  ∧ ∃ m out,
      create_ky6_map fs (Ok districts) (Ok counties) = (Ok (Some m), out)
      ∧ SkippingInvalidGeometry (NAME c) ∈ out
      ∧ CountyListed (NAME c) ∈ out
      ∧ (∀ j st, GeoJson j st (CountyName (NAME c)) ∈ m →
           ∃ c', c' ∈ ky_counties counties ∧ c' ≠ c ∧ NAME c' = NAME c)
      ∧ (Overlay.geom_type (geometry c) = "Polygon"
         ∨ Overlay.geom_type (geometry c) = "MultiPolygon" →
         GeoJson (outline (geometry c)) Excluded (OutsideDistrict (NAME c)) ∈ m).
Proof.
  intros Hd Hc Hvc Hvr [Hint Harea].
  assert (c ∈ intersecting_counties (dgeometry d) counties) as Hin.
  { by apply elem_of_intersecting. }
  split. { rewrite elem_of_outside. simpl. rewrite Hint. naive_solver. }
  split; [done|].
  destruct (valid_county_row (dgeometry d) counties (after_download fs) c Hin Hvc Hvr)
    as (frame & Hframe & Hrow).
  assert (Grid.buffer0 (Grid.intersection (outline (geometry c))
                                          (outline (dgeometry d))) = ∅) as Hbuf.
  { by apply buffer0_empty_iff, area_zero. }
  rewrite Hbuf in Hrow.
  pose proof (create_ky6_map_layers fs _ _ _ _ _ Hd Hframe) as Hm.
  destruct (create_ky6_map fs (Ok districts) (Ok counties)) as [res out] eqn:Hrun.
  simpl in Hm. subst res. eexists _, out. split; [reflexivity|].
  split.
  { replace out with (create_ky6_map fs (Ok districts) (Ok counties)).2
      by (by rewrite Hrun).
    apply (run_prints_skip fs _ _ _ _ _ _ Hd Hframe Hrow).
    simpl. by apply is_empty_true. }
  split.
  { replace out with (create_ky6_map fs (Ok districts) (Ok counties)).2
      by (by rewrite Hrun).
    apply (run_lists fs _ _ _ _ _ _ Hd Hframe Hrow). }
  split.
  - intros j st Hj.
    apply elem_of_groups in Hj. rewrite !list_elem_of_bind in Hj.
    destruct Hj as [(c' & Hx & _)|[(c' & Hx & _)|[Hx|(r & Hx & Hr)]]].
    + apply elem_of_outside_layer in Hx as (? & _ & ?). done.
    + apply elem_of_outside_part_layer in Hx as (? & ? & _ & _ & _ & ?). done.
    + done.
    + apply (elem_of_traced_frame _ _ _ _ _ Hframe) in Hr
        as (c' & [_ Hc']%elem_of_intersecting & _ & _ & _ & ->).
      apply elem_of_county_layers in Hx as (Hne & j' & _ & [Hx|Hx]).
      * injection Hx as _ _ Hname. simpl in Hname, Hne.
        exists c'. split; [done|]. split; [|done]. intros ->.
        rewrite Hbuf in Hne. by apply is_empty_false in Hne.
      * apply elem_of_label in Hx as (? & _ & ?). done.
  - intros Hpoly%geom_type_areal.
    apply elem_of_groups. right. left.
    apply list_elem_of_bind. exists c. split; [|done].
    apply elem_of_outside_part_layer.
    destruct (valid_sound _ Hvc) as [Hsc _]. destruct (valid_sound _ Hvr) as [Hsr _].
    eexists _, _. split; [by apply difference_sound|].
    rewrite (difference_touching _ _ Hpoly) by (by apply area_zero).
    split; [|split; reflexivity].
    apply is_empty_false. intros Hempty. simpl in Hempty.
    apply intersects_nonempty in Hint. apply Hint.
    unfold Grid.intersection. rewrite Hempty. set_solver.
Qed.

(** C5, amended: a county of the state with a valid geometry that the
    area test of the design classes as partial against a valid Region is
    on the intersecting path, and both its clips are drawn: the repaired
    intersection as included, the difference as excluded.  Neither is
    empty, and their areas add up to the county's. *)
Theorem partial_county_both_clips (fs : Files.store)
    (districts : list (district traced))
    (counties : list (county traced)) d rest c :
  ky6_district districts = d :: rest →
  c ∈ ky_counties counties →
  Overlay.is_valid (geometry c) = true →
  Overlay.is_valid (dgeometry d) = true →
  classify (outline (dgeometry d)) (outline (geometry c)) = PARTIAL →
  let clip_in := Grid.buffer0 (Grid.intersection (outline (geometry c))
                                                 (outline (dgeometry d))) in
  let clip_out := Grid.difference (outline (geometry c)) (outline (dgeometry d)) in
  c ∈ intersecting_counties (dgeometry d) counties
  ∧ clip_in ≠ ∅
  ∧ clip_out ≠ ∅
  ∧ (area clip_in + area clip_out = area (outline (geometry c)))%nat
  ∧ ∃ m, (create_ky6_map fs (Ok districts) (Ok counties)).1 = Ok (Some m)
         ∧ GeoJson clip_in Included (CountyName (NAME c)) ∈ m
         ∧ GeoJson clip_out Excluded (OutsideDistrict (NAME c)) ∈ m.
Proof.
  intros Hd Hc Hvc Hvr Hclass clip_in clip_out.
  unfold classify in Hclass.
  destruct (decide (area _ = 0%nat)) as [|Hpos]; [done|].
  destruct (decide (area _ = area _)) as [|Hless]; [done|]. clear Hclass.
  pose proof (area_split (outline (geometry c)) (outline (dgeometry d))) as Hsplit.
  fold (Grid.intersection (outline (geometry c)) (outline (dgeometry d))) in Hsplit.
  assert (clip_in ≠ ∅) as Hin_ne.
  { apply area_positive. unfold clip_in. by rewrite area_buffer0. }
  assert (clip_out ≠ ∅) as Hout_ne.
  { apply area_positive. unfold clip_out. rewrite area_difference. lia. }
  assert (c ∈ intersecting_counties (dgeometry d) counties) as Hin.
  { apply elem_of_intersecting. split; [|done].
    apply intersects_nonempty. by apply area_positive. }
  split; [done|]. split; [done|]. split; [done|]. split.
  { unfold clip_in, clip_out. rewrite area_buffer0, area_difference. done. }
  destruct (valid_county_row (dgeometry d) counties (after_download fs) c Hin Hvc Hvr)
    as (frame & Hframe & Hrow).
  eexists. split; [exact (create_ky6_map_layers fs _ _ _ _ _ Hd Hframe)|].
  destruct (valid_sound _ Hvc) as [Hsc _]. destruct (valid_sound _ Hvr) as [Hsr _].
  split.
  - apply elem_of_groups. do 3 right.
    apply list_elem_of_bind. eexists. split; [|exact Hrow].
    apply elem_of_county_layers. split; [by apply is_empty_false|].
    eexists. split; [reflexivity|]. by left.
  - apply elem_of_groups. right. left.
    apply list_elem_of_bind. exists c. split; [|done].
    apply elem_of_outside_part_layer.
    eexists _, _. split; [by apply difference_sound|].
    split; [by apply is_empty_false|]. split; reflexivity.
Qed.

(** The lattice library gives every valid county that shares area with a
    valid Region a clip that is kept and stays non-empty under repair. *)
Lemma usable_clip_of_valid region c :
  Overlay.is_valid (geometry c) = true →
  Overlay.is_valid region = true →
  area (Grid.intersection (outline (geometry c)) (outline region)) ≠ 0%nat →
  ∃ g g', Overlay.intersection (geometry c) region = Ok g
          ∧ Overlay.is_empty g = false
          ∧ Overlay.is_valid g = true
          ∧ Overlay.buffer0 g = Ok g'
          ∧ Overlay.is_empty g' = false.
Proof.
  intros [Hsc Hvc]%valid_sound [Hsr Hvr]%valid_sound Harea.
  eexists _, _. split; [by apply intersection_sound|].
  split; [by apply is_empty_false, area_positive|].
  split; [simpl; by rewrite intersection_valid|].
  split; [reflexivity|].
  apply is_empty_false, area_positive. simpl. by rewrite area_buffer0.
Qed.




End TracedOverlay.

(** ** More on the composed map *)

Section MapContents.
Import Overlay.
Context {G J : Type} `{Geometry G J}.
Implicit Types (c : county G).

#[local] Abbreviation after_download fs :=
  (World (G := G) (J := J) []
     (DataFiles <$> (Files.download_and_extract_data fs).2)).

(** X1: the only markers on the map are county labels.  Each one carries
    the name of an intersecting county and sits at the anchor of that
    county's repaired clip, latitude first.  Nothing is drawn from the
    [county_seats] table of lines 100-122. *)
Theorem markers_are_county_labels fs (districts : list (district G))
    (counties : list (county G)) d rest m loc name :
  ky6_district districts = d :: rest →
  (create_ky6_map fs (Ok districts) (Ok counties)).1 = Ok (Some m) →
  Marker loc name ∈ m →
  ∃ c g g' p,
    c ∈ intersecting_counties (dgeometry d) counties
    ∧ intersection (geometry c) (dgeometry d) = Ok g
    ∧ buffer0 g = Ok g'
    ∧ anchor g' = Some (Ok p)
    ∧ loc = (py p, px p)
    ∧ name = NAME c.
Proof.
  intros Hd Hm Hx.
  apply (elem_of_map _ _ _ _ _ Hm) in Hx
    as (d' & rest' & frame & Hd' & Hframe & Hx).
  rewrite Hd in Hd'. injection Hd' as <- <-.
  destruct Hx as [(c & _ & Hc)|[(c & _ & Hc)|[Hc|(r & Hr & Hc)]]].
  - apply elem_of_outside_layer in Hc as (j & _ & ?). done.
  - apply elem_of_outside_part_layer in Hc as (g & j & _ & _ & _ & ?). done.
  - done.
  - apply (elem_of_clipped_frame _ _ _ _ _ Hframe) in Hr
      as (c & g & g' & Hc' & Hg & _ & _ & Hg' & ->).
    apply elem_of_county_layers in Hc as (_ & j & _ & [?|Hc]); [done|].
    apply elem_of_label in Hc as (p & Hp & Heq).
    simpl in *. injection Heq as -> ->. eauto 10.
Qed.

(** X2: every geometry layer of the map belongs to a county of state 21 of
    the input table, and its style goes with its tooltip: grey with the
    "outside district" tooltip, light blue with the county name.  A county
    of another state is never drawn. *)
Theorem only_state_counties_drawn fs (districts : list (district G))
    (counties : list (county G)) d rest m j st tip :
  ky6_district districts = d :: rest →
  (create_ky6_map fs (Ok districts) (Ok counties)).1 = Ok (Some m) →
  GeoJson j st tip ∈ m →
  ∃ c, c ∈ counties ∧ STATEFP c = "21"
       ∧ ((st = Excluded ∧ tip = OutsideDistrict (NAME c))
          ∨ (st = Included ∧ tip = CountyName (NAME c))).
Proof.
  intros Hd Hm Hx.
  assert (∀ c, c ∈ ky_counties counties → c ∈ counties ∧ STATEFP c = "21") as Hky.
  { intros c. unfold ky_counties. rewrite list_elem_of_filter. naive_solver. }
  apply (elem_of_map _ _ _ _ _ Hm) in Hx
    as (d' & rest' & frame & Hd' & Hframe & Hx).
  rewrite Hd in Hd'. injection Hd' as <- <-.
  destruct Hx as [(c & Hin & Hc)|[(c & Hin & Hc)|[Hc|(r & Hr & Hc)]]].
  - apply elem_of_outside in Hin as [_ Hin]. apply Hky in Hin as [??].
    apply elem_of_outside_layer in Hc as (j' & _ & Heq).
    injection Heq as -> -> ->. exists c. auto.
  - apply elem_of_intersecting in Hin as [_ Hin]. apply Hky in Hin as [??].
    apply elem_of_outside_part_layer in Hc as (g & j' & _ & _ & _ & Heq).
    injection Heq as -> -> ->. exists c. auto.
  - done.
  - apply (elem_of_clipped_frame _ _ _ _ _ Hframe) in Hr
      as (c & g & g' & Hin & _ & _ & _ & _ & ->).
    apply elem_of_intersecting in Hin as [_ Hin]. apply Hky in Hin as [??].
    apply elem_of_county_layers in Hc as (_ & j' & _ & [Heq|Hc]).
    + injection Heq as -> -> ->. exists c. auto.
    + apply elem_of_label in Hc as (p & _ & ?). done.
Qed.

(** X3: on the map a run returns, the Region outline is drawn exactly
    once, with every row the district filter kept; no other child of the
    map is a frame layer. *)
Theorem boundary_drawn_once fs (districts : list (district G))
    (counties : list (county G)) d rest m :
  ky6_district districts = d :: rest →
  (create_ky6_map fs (Ok districts) (Ok counties)).1 = Ok (Some m) →
  ∃ below above,
    m = below ++ [GeoJsonFrame (d :: rest) Boundary DistrictTitle] ++ above
    ∧ Forall (λ x, ∀ rows st tip, x ≠ GeoJsonFrame rows st tip) (below ++ above).
Proof.
  intros Hd Hm.
  destruct (create_ky6_map_returns _ _ _ _ Hm)
    as (d' & rest' & frame & Hd' & Hframe).
  rewrite Hd in Hd'. injection Hd' as <- <-.
  rewrite (create_ky6_map_layers _ _ _ _ _ _ Hd Hframe) in Hm.
  exists ((outside_counties (dgeometry d) counties ≫= outside_layer)
          ++ (intersecting_counties (dgeometry d) counties
                ≫= outside_part_layer (dgeometry d))),
         (frame ≫= county_layers).
  split. { rewrite <- app_assoc. congruence. }
  rewrite !Forall_app, !Forall_forall. split; [split|].
  - intros x (c & Hx & _)%list_elem_of_bind rows st tip ->.
    by apply elem_of_outside_layer in Hx as (j & _ & ?).
  - intros x (c & Hx & _)%list_elem_of_bind rows st tip ->.
    by apply elem_of_outside_part_layer in Hx as (g & j & _ & _ & _ & ?).
  - intros x (c & Hx & _)%list_elem_of_bind rows st tip ->.
    apply elem_of_county_layers in Hx as (_ & j & _ & [?|Hx]); [done|].
    by apply elem_of_label in Hx as (p & _ & ?).
Qed.

(** X4: when the district filter keeps several rows, only the first one's
    geometry is clipped against.  Of two district tables whose first kept
    rows have the same geometry, when the run on one returns a map so does
    the run on the other, with the same layers below and above the
    outline, and the other rows show in the outline layer only; and when
    the run on one ends with an exception, so does the run on the other,
    with the same one. *)
Theorem only_first_district_row_clips fs
    (districts1 districts2 : list (district G))
    (counties : list (county G)) d1 rest1 d2 rest2 :
  ky6_district districts1 = d1 :: rest1 →
  ky6_district districts2 = d2 :: rest2 →
  dgeometry d1 = dgeometry d2 →
  (∀ m1, (create_ky6_map fs (Ok districts1) (Ok counties)).1 = Ok (Some m1) →
     ∃ below above,
       m1 = below ++ [GeoJsonFrame (d1 :: rest1) Boundary DistrictTitle] ++ above
       ∧ (create_ky6_map fs (Ok districts2) (Ok counties)).1
         = Ok (Some (below ++ [GeoJsonFrame (d2 :: rest2) Boundary DistrictTitle]
                       ++ above)))
  ∧ (∀ e, (create_ky6_map fs (Ok districts1) (Ok counties)).1 = Raise e →
          (create_ky6_map fs (Ok districts2) (Ok counties)).1 = Raise e).
Proof.
  intros H1 H2 Hg. split.
  - intros m1 Hm.
    destruct (create_ky6_map_returns _ _ _ _ Hm)
      as (d' & rest' & frame & Hd' & Hframe).
    rewrite H1 in Hd'. injection Hd' as <- <-.
    rewrite (create_ky6_map_layers _ _ _ _ _ _ H1 Hframe) in Hm.
    exists ((outside_counties (dgeometry d1) counties ≫= outside_layer)
            ++ (intersecting_counties (dgeometry d1) counties
                  ≫= outside_part_layer (dgeometry d1))),
           (frame ≫= county_layers).
    split. { rewrite <- app_assoc. congruence. }
    rewrite Hg in Hframe.
    rewrite (create_ky6_map_layers _ _ _ _ _ _ H2 Hframe), Hg.
    by rewrite <- app_assoc.
  - intros e. rewrite (create_ky6_map_found _ _ _ _ _ H1). cbv zeta.
    destruct (clipped_counties (dgeometry d1) counties _).1 as [frame|e']
      eqn:Hframe; [done|].
    cbn [fst]. intros [= <-]. rewrite Hg in Hframe.
    by apply (create_ky6_map_raises _ _ _ _ _ _ H2).
Qed.

(** X5: when the run returns [None] it has printed the lines of
    [download_and_extract_data], of which there is at least one, and then
    two more; the last lists each district code of state 21 once, and "06"
    is never among them. *)
Theorem missing_district_diagnostic fs (districts : list (district G))
    (counties : list (county G)) :
  (create_ky6_map fs (Ok districts) (Ok counties)).1 = Ok None →
  ∃ codes,
    (create_ky6_map fs (Ok districts) (Ok counties)).2
    = (DataFiles <$> (Files.download_and_extract_data fs).2)
      ++ [DistrictNotFound; AvailableDistricts codes]
    ∧ (Files.download_and_extract_data fs).2 ≠ []
    ∧ NoDup codes
    ∧ ("06" ∉ codes)
    ∧ ∀ code, code ∈ codes
              ↔ ∃ d, d ∈ districts ∧ dSTATEFP d = "21" ∧ CD119FP d = code.
Proof.
  destruct (ky6_district districts) as [|d rest] eqn:Hd.
  2: { rewrite (create_ky6_map_found _ _ _ _ _ Hd). cbv zeta.
       by destruct (clipped_counties _ _ _).1. }
  unfold create_ky6_map. rewrite Hd.
  intros _. eexists. split; [done|]. split.
  { unfold Files.download_and_extract_data. by repeat case_match. }
  split; [apply NoDup_unique|].
  assert (∀ code, code ∈ unique (CD119FP <$> filter (λ d, dSTATEFP d = "21") districts)
            ↔ ∃ d, d ∈ districts ∧ dSTATEFP d = "21" ∧ CD119FP d = code) as Hcodes.
  { intros code. rewrite elem_of_unique, list_elem_of_fmap.
    setoid_rewrite list_elem_of_filter. naive_solver. }
  split; [|done].
  rewrite Hcodes. intros (d & Hin & Hs & Hc).
  assert (d ∈ ky6_district districts) as Habs.
  { unfold ky6_district. apply list_elem_of_filter. done. }
  rewrite Hd in Habs. by apply elem_of_nil in Habs.
Qed.

(** X8: a run that returns a map ends its output with the line of
    success, the heading, and one line per county name, in ascending order
    and without repetition; the names are exactly those of the counties
    that meet the Region and whose clip was kept and repaired.  A county
    whose clip raised or was skipped is not listed; one whose kept clip
    repairs to the empty geometry is. *)
Theorem closing_summary_lists_kept_counties fs (districts : list (district G))
    (counties : list (county G)) d rest m out :
  ky6_district districts = d :: rest →
  create_ky6_map fs (Ok districts) (Ok counties) = (Ok (Some m), out) →
  ∃ before names,
    out = before ++ [MapCreated; CountiesHeading] ++ (CountyListed <$> names)
    ∧ Sorted str_le names
    ∧ NoDup names
    ∧ ∀ n, n ∈ names
           ↔ ∃ c g g', c ∈ intersecting_counties (dgeometry d) counties
                       ∧ intersection (geometry c) (dgeometry d) = Ok g
                       ∧ is_empty g = false
                       ∧ is_valid g = true
                       ∧ buffer0 g = Ok g'
                       ∧ NAME c = n.
Proof.
  intros Hd Hrun.
  assert ((create_ky6_map fs (Ok districts) (Ok counties)).1 = Ok (Some m)) as Hm
    by (by rewrite Hrun).
  destruct (create_ky6_map_returns _ _ _ _ Hm)
    as (d' & rest' & frame & Hd' & Hframe).
  rewrite Hd in Hd'. injection Hd' as <- <-.
  pose proof (create_ky6_map_stdout fs _ _ _ _ _ Hd Hframe) as Hout.
  rewrite Hrun in Hout. simpl in Hout.
  eexists _, (listing frame). split; [exact Hout|].
  split; [apply listing_sorted|]. split; [apply listing_NoDup|].
  intros n. rewrite listing_names. split.
  - intros (r & Hr & <-).
    apply (elem_of_clipped_frame _ _ _ _ _ Hframe) in Hr
      as (c & g & g' & Hc & Hg & Hne & Hv & Hg' & ->).
    exists c, g, g'. done.
  - intros (c & g & g' & Hc & Hg & Hne & Hv & Hg' & <-).
    exists (with_geometry c g'). split; [|done].
    apply (elem_of_clipped_frame _ _ _ _ _ Hframe). exists c, g, g'. done.
Qed.

End MapContents.

Section TracedContents.
Import Grid Overlay Lattice.
Implicit Types (a b region : traced) (c : county traced).

#[local] Abbreviation after_download fs :=
  (World (G := traced) (J := shape) []
     (DataFiles <$> (Files.download_and_extract_data fs).2)).

(** C2, amended: every non-empty clipped polygon gets an anchor.  For a
    multi-part geometry it is the representative point, and it lies inside
    the geometry.  For a single-part geometry it is the centroid (which may
    lie outside, as the horseshoe shows). *)
Theorem anchor_multipart_inside (g : traced) :
  (Overlay.geom_type g = "MultiPolygon" →
   ∃ p, anchor g = Some (Ok p)
        ∧ Overlay.representative_point g = Ok p
        ∧ Grid.contains (outline g) p = true)
  ∧ (Overlay.geom_type g = "Polygon" → Overlay.is_empty g = false →
     ∃ p, anchor g = Some (Ok p) ∧ Overlay.centroid g = Ok p).
Proof.
  split.
  - intros Hty. destruct (geom_type_multi (outline g) Hty) as [_ Hne].
    destruct (representative_point_inside (outline g)) as (p & Hp & Hin).
    { intros Hempty. apply Hne. rewrite Hempty. apply squares_empty. }
    exists p. unfold anchor. rewrite Hty. simpl. by rewrite Hp.
  - intros Hty Hne. destruct (centroid_nonempty (outline g)) as [p Hp].
    { by apply is_empty_false. }
    exists p. unfold anchor. rewrite Hty. simpl.
    split; [by rewrite Hp|exact Hp].
Qed.

(** X6: with the lattice library every row of the clipped frame is either
    skipped as empty or drawn together with its label: after the repair of
    line 97 the [else: continue] of line 239 and the handler of line 249 are
    never reached from the anchor. *)
Theorem clipped_rows_always_labelled region (counties : list (county traced))
    (w : world traced shape) frame (r : county traced) :
  (clipped_counties region counties w).1 = Ok frame →
  r ∈ frame →
  (Overlay.is_empty (geometry r) = true ∧ county_layers r = [])
  ∨ ∃ p, county_layers r
         = [GeoJson (outline (geometry r)) Included (CountyName (NAME r));
            Marker (py p, px p) (NAME r)].
Proof.
  intros Hframe (c & _ & _ & _ & _ & ->)%(elem_of_traced_frame _ _ _ _ _ Hframe).
  unfold county_layers, label. simpl.
  destruct (Grid.is_empty (Grid.buffer0 _)) eqn:He; [by left|right].
  apply is_empty_false in He.
  destruct (anchor_buffer0 _ He) as [p Hp]. exists p.
  simpl in Hp. by rewrite Hp.
Qed.

(** X7: with the lattice library and a valid Region, what is drawn light
    blue lies within the Region and is not empty, and what is drawn grey
    shares no area with the Region. *)
Theorem included_inside_excluded_outside (fs : Files.store)
    (districts : list (district traced))
    (counties : list (county traced)) (d : district traced)
    (rest : list (district traced)) (m : list (child traced shape))
    (j : shape) (st : style) (tip : tooltip) :
  ky6_district districts = d :: rest →
  Overlay.is_valid (dgeometry d) = true →
  (create_ky6_map fs (Ok districts) (Ok counties)).1 = Ok (Some m) →
  GeoJson j st tip ∈ m →
  (st = Included ∧ j ⊆ outline (dgeometry d) ∧ j ≠ ∅)
  ∨ (st = Excluded
     ∧ area (Grid.intersection j (outline (dgeometry d))) = 0%nat).
Proof.
  intros Hd [_ Hvalid]%valid_sound Hm Hx.
  apply (elem_of_map _ _ _ _ _ Hm) in Hx
    as (d' & rest' & frame & Hd' & Hframe & Hx).
  rewrite Hd in Hd'. injection Hd' as <- <-.
  destruct Hx as [(c & Hin & Hc)|[(c & Hin & Hc)|[Hc|(r & Hr & Hc)]]].
  - right. apply elem_of_outside in Hin as [Hno _].
    apply elem_of_outside_layer in Hc as (j' & Hj & Heq).
    injection Heq as -> -> ->. injection Hj as <-.
    simpl in Hno. unfold Grid.intersects in Hno.
    apply negb_false_iff, bool_decide_eq_true in Hno.
    split; [done|]. unfold Grid.intersection. rewrite Hno.
    apply area_zero, squares_empty.
  - right. apply elem_of_outside_part_layer in Hc as (g & j' & Hg & _ & Hj & Heq).
    injection Heq as -> -> ->. injection Hj as <-.
    apply difference_Ok_inv in Hg as (_ & _ & ->).
    split; [done|]. apply difference_no_common_area.
  - done.
  - left. apply (elem_of_traced_frame _ _ _ _ _ Hframe) in Hr
      as (c & _ & _ & _ & _ & ->).
    apply elem_of_county_layers in Hc as (Hne & j' & Hj & [Heq|Hc]).
    2: { apply elem_of_label in Hc as (p & _ & ?). done. }
    injection Heq as -> -> ->. simpl in *. injection Hj as <-.
    split; [done|]. split.
    + by apply buffer0_intersection_subseteq.
    + by apply is_empty_false.
Qed.

(** X9: with the lattice library and valid geometries, every intersecting
    county has a row in the clipped frame and is named in the closing list
    of counties of the district.  That includes a county that only touches
    the district, whose row draws nothing. *)
Theorem every_intersecting_county_listed region
    (counties : list (county traced)) (w : world traced shape) c :
  c ∈ intersecting_counties region counties →
  Overlay.is_valid (geometry c) = true →
  Overlay.is_valid region = true →
  let row :=
    with_geometry c
      (ring (Grid.buffer0 (Grid.intersection (outline (geometry c))
                                             (outline region)))) in
  ∃ frame,
    (clipped_counties region counties w).1 = Ok frame
    ∧ row ∈ frame
    ∧ NAME c ∈ listing frame
    ∧ (touches_only (outline (geometry c)) (outline region) →
       county_layers row = []).
Proof.
  intros Hc Hvc Hvr row.
  destruct (valid_county_row region counties w c Hc Hvc Hvr)
    as (frame & Hframe & Hrow).
  exists frame. split; [done|]. split; [done|]. split.
  - apply listing_names. exists row. done.
  - intros [_ Harea]. apply area_zero, buffer0_empty_iff in Harea.
    unfold county_layers, row. simpl. rewrite Harea. done.
Qed.

End TracedContents.

(** ** Runs on the small state *)

(** The rows of a table written out as a list, one by one. *)
Ltac each_row H :=
  repeat (apply elem_of_cons in H as [->|H]); [..|by apply elem_of_nil in H].

Section Runs.
Import Grid Overlay Lattice Sample.

#[local] Abbreviation after_download fs :=
  (World (G := traced) (J := shape) []
     (DataFiles <$> (Files.download_and_extract_data fs).2)).

(** The repaired clip of a county of the small state. *)
#[local] Abbreviation clip_of c :=
  (Grid.buffer0 (Grid.intersection (outline (geometry c)) (outline ky6))).

Lemma sample_district : ky6_district districts = [District "21" "06" ky6].
Proof. reflexivity. Qed.

Lemma ky6_valid : Overlay.is_valid ky6 = true.
Proof. vm_compute. reflexivity. Qed.

Lemma fayette_valid : Overlay.is_valid (geometry fayette) = true.
Proof. vm_compute. reflexivity. Qed.

Lemma scott_valid : Overlay.is_valid (geometry scott) = true.
Proof. vm_compute. reflexivity. Qed.

Lemma bath_valid : Overlay.is_valid (geometry bath) = true.
Proof. vm_compute. reflexivity. Qed.

Lemma pike_valid : Overlay.is_valid (geometry pike) = true.
Proof. vm_compute. reflexivity. Qed.

Lemma fayette_intersecting : fayette ∈ intersecting_counties ky6 counties.
Proof. apply elem_of_intersecting. split; [vm_compute; reflexivity|in_state]. Qed.

Lemma scott_intersecting : scott ∈ intersecting_counties ky6 counties.
Proof. apply elem_of_intersecting. split; [vm_compute; reflexivity|in_state]. Qed.

Lemma bath_intersecting : bath ∈ intersecting_counties ky6 counties.
Proof. apply elem_of_intersecting. split; [vm_compute; reflexivity|in_state]. Qed.

Lemma pike_outside : pike ∈ outside_counties ky6 counties.
Proof. apply elem_of_outside. split; [vm_compute; reflexivity|in_state]. Qed.

Lemma bath_touches : touches_only (outline (geometry bath)) (outline ky6).
Proof. split; vm_compute; reflexivity. Qed.

Lemma sample_names : NoDup (NAME <$> ky_counties counties).
Proof. apply (bool_decide_unpack _). vm_compute. exact I. Qed.

(** The clipped frame of the small state, whatever was printed before. *)
Lemma sample_frame (w : world traced shape) :
  ∃ frame,
    (clipped_counties ky6 counties w).1 = Ok frame
    ∧ with_geometry fayette (ring (clip_of fayette)) ∈ frame
    ∧ with_geometry scott (ring (clip_of scott)) ∈ frame
    ∧ with_geometry bath (ring (clip_of bath)) ∈ frame.
Proof.
  destruct (valid_county_row ky6 counties w fayette
              fayette_intersecting fayette_valid ky6_valid)
    as (frame & Hframe & Hfayette).
  exists frame. split; [done|]. split; [done|].
  split; apply (elem_of_traced_frame _ _ _ _ _ Hframe).
  - exists scott. split; [apply scott_intersecting|].
    repeat split; vm_compute; reflexivity.
  - exists bath. split; [apply bath_intersecting|].
    repeat split; vm_compute; reflexivity.
Qed.

(** The run on the small state returns a map. *)
Lemma sample_run :
  ∃ frame m out,
    (clipped_counties ky6 counties (after_download store)).1 = Ok frame
    ∧ create_ky6_map store (Ok districts) (Ok counties) = (Ok (Some m), out).
Proof.
  destruct (sample_frame (after_download store)) as (frame & Hframe & _).
  exists frame. eexists _, _. split; [done|].
  exact (create_ky6_map_pair store _ _ _ _ _ sample_district Hframe).
Qed.

Lemma sample_marker m :
  (create_ky6_map store (Ok districts) (Ok counties)).1 = Ok (Some m) →
  Marker (1 # 2, 1 # 2) "Fayette" ∈ m.
Proof.
  intros Hm. apply (elem_of_map _ _ _ _ _ Hm).
  destruct (sample_frame (after_download store)) as (frame & Hframe & Hrow & _).
  eexists _, _, frame. split; [exact sample_district|]. split; [done|].
  do 3 right. eexists. split; [exact Hrow|].
  apply elem_of_county_layers. split; [vm_compute; reflexivity|].
  eexists. split; [reflexivity|]. right.
  apply elem_of_label. exists (Point (1 # 2) (1 # 2)).
  split; [vm_compute; reflexivity|reflexivity].
Qed.

Lemma sample_grey m :
  (create_ky6_map store (Ok districts) (Ok counties)).1 = Ok (Some m) →
  GeoJson (outline (geometry pike)) Excluded (OutsideDistrict "Pike") ∈ m.
Proof.
  intros Hm. apply (elem_of_map _ _ _ _ _ Hm).
  destruct (sample_frame (after_download store)) as (frame & Hframe & _).
  eexists _, _, frame. split; [exact sample_district|]. split; [done|].
  left. exists pike. split; [apply pike_outside|].
  apply elem_of_outside_layer. eexists. split; reflexivity.
Qed.

Lemma sample_returns :
  ∃ m, (create_ky6_map store (Ok districts) (Ok counties)).1 = Ok (Some m).
Proof.
  destruct sample_run as (frame & m & out & _ & Hrun).
  exists m. by rewrite Hrun.
Qed.

Lemma routing_partition_witness :
  bath ∈ ky_counties counties
  ∧ ((Overlay.intersects (geometry bath) ky6 = true
      ∧ bath ∈ intersecting_counties ky6 counties
      ∧ bath ∉ outside_counties ky6 counties)
     ∨ (Overlay.intersects (geometry bath) ky6 = false
        ∧ (bath ∉ intersecting_counties ky6 counties)
        ∧ bath ∈ outside_counties ky6 counties)).
Proof.
  assert (bath ∈ ky_counties counties) as Hin.
  { in_state. }
  split; [exact Hin|].
  exact (proj2 (routing_partition ky6 counties) bath Hin).
Defined.

(** C3, as stated, fails: the clip of Clark County raises, so no
    clipped-in geometry is kept for it, yet it meets the Region and is not
    on the outside path. *)
Lemma failed_clip_is_not_disjoint :
  bowtie ∈ ky_counties unsound_counties
  ∧ (bowtie ∉ outside_counties ky6 unsound_counties)
  ∧ ∃ frame,
      (clipped_counties ky6 unsound_counties (World [] [])).1 = Ok frame
      ∧ ∀ r, r ∈ frame → NAME r ≠ NAME bowtie.
Proof.
  split; [in_state|]. split.
  { intros [Hno _]%elem_of_outside. vm_compute in Hno. discriminate. }
  assert (fayette ∈ intersecting_counties ky6 unsound_counties) as Hin.
  { apply elem_of_intersecting. split; [vm_compute; reflexivity|in_state]. }
  destruct (valid_county_row ky6 unsound_counties (World [] []) fayette
              Hin fayette_valid ky6_valid) as (frame & Hframe & _).
  exists frame. split; [done|]. intros r Hr Hname.
  apply (elem_of_traced_frame _ _ _ _ _ Hframe) in Hr
    as (c & [_ [_ Hc]%list_elem_of_filter]%elem_of_intersecting & Hsound & _ & _ & ->).
  each_row Hc; try discriminate Hname. discriminate Hsound.
Qed.

Lemma disjoint_iff_no_clip_witness :
  ∃ frame,
    (clipped_counties ky6 counties (World [] [])).1 = Ok frame
    ∧ pike ∈ outside_counties ky6 counties
    ∧ (∀ r, r ∈ frame → NAME r ≠ NAME pike)
    ∧ (scott ∈ outside_counties ky6 counties
       ↔ ∀ r, r ∈ frame → NAME r = NAME scott →
              Overlay.is_empty (geometry r) = true).
Proof.
  destruct (sample_frame (World [] [])) as (frame & Hframe & _).
  assert (pike ∈ ky_counties counties) as Hpike.
  { in_state. }
  assert (scott ∈ ky_counties counties) as Hscott.
  { in_state. }
  assert (area (Grid.intersection (outline (geometry scott)) (outline ky6))
          ≠ 0%nat) as Harea.
  { vm_compute. discriminate. }
  exists frame. split; [exact Hframe|]. split; [exact pike_outside|]. split.
  - exact (proj1 (disjoint_iff_no_clip ky6 counties pike (World [] []) frame
                    sample_names Hpike Hframe) pike_outside).
  - exact (proj2 (disjoint_iff_no_clip ky6 counties scott (World [] []) frame
                    sample_names Hscott Hframe)
             (λ _, usable_clip_of_valid ky6 scott scott_valid ky6_valid Harea)).
Defined.

Lemma touching_county_enters_district_witness :
  (bath ∉ outside_counties ky6 counties)
  ∧ ∃ m out,
      create_ky6_map store (Ok districts) (Ok counties) = (Ok (Some m), out)
      ∧ SkippingInvalidGeometry "Bath" ∈ out
      ∧ CountyListed "Bath" ∈ out
      ∧ GeoJson (outline (geometry bath)) Excluded (OutsideDistrict "Bath") ∈ m.
Proof.
  assert (bath ∈ ky_counties counties) as Hin.
  { in_state. }
  destruct (touching_county_enters_district store districts counties _ _ bath
              sample_district Hin bath_valid ky6_valid bath_touches)
    as (Hout & _ & m & out & Hrun & Hskip & Hlist & _ & Hgrey).
  split; [exact Hout|]. exists m, out. split; [exact Hrun|].
  split; [exact Hskip|]. split; [exact Hlist|].
  apply Hgrey. left. vm_compute. reflexivity.
Defined.

Lemma clark_row c :
  c ∈ ky_counties unsound_counties → NAME c = "Clark" → c = bowtie.
Proof.
  intros [_ Hc]%list_elem_of_filter Hn.
  each_row Hc; [discriminate Hn|reflexivity|discriminate Hn].
Qed.

(** C5, as stated, fails: Clark County is half inside the Region and half
    outside, so the area test classes it as partial; both its clips raise,
    and the map holds neither a clipped-in nor a clipped-out geometry for
    it. *)
Lemma unsound_partial_county_no_clips :
  classify (outline ky6) (outline (geometry bowtie)) = PARTIAL
  ∧ bowtie ∈ intersecting_counties ky6 unsound_counties
  ∧ ∃ m,
      (create_ky6_map store (Ok [District "21" "06" ky6]) (Ok unsound_counties)).1
      = Ok (Some m)
      ∧ ∀ j st, (GeoJson j st (CountyName "Clark") ∉ m)
                ∧ (GeoJson j st (OutsideDistrict "Clark") ∉ m).
Proof.
  split; [vm_compute; reflexivity|].
  assert (bowtie ∈ intersecting_counties ky6 unsound_counties) as Hbow.
  { apply elem_of_intersecting. split; [vm_compute; reflexivity|in_state]. }
  split; [done|].
  assert (fayette ∈ intersecting_counties ky6 unsound_counties) as Hin.
  { apply elem_of_intersecting. split; [vm_compute; reflexivity|in_state]. }
  destruct (valid_county_row ky6 unsound_counties (after_download store) fayette
              Hin fayette_valid ky6_valid) as (frame & Hframe & _).
  assert (ky6_district [District "21" "06" ky6] = [District "21" "06" ky6])
    as Hd by reflexivity.
  eexists. split; [exact (create_ky6_map_layers store _ _ _ _ _ Hd Hframe)|].
  pose proof clark_row as Hname.
  intros j st. split; intros Hx%elem_of_groups; rewrite !list_elem_of_bind in Hx;
    destruct Hx as [(c & Hx & Hc)|[(c & Hx & Hc)|[Hx|(r & Hx & Hr)]]];
    [| |discriminate Hx| | | |discriminate Hx|].
  - apply elem_of_outside_layer in Hx as (? & _ & Heq). discriminate Heq.
  - apply elem_of_outside_part_layer in Hx as (? & ? & _ & _ & _ & Heq).
    discriminate Heq.
  - apply (elem_of_traced_frame _ _ _ _ _ Hframe) in Hr
      as (c & [_ Hc]%elem_of_intersecting & Hsound & _ & _ & ->).
    apply elem_of_county_layers in Hx as (_ & ? & _ & [Hx|Hx]).
    + injection Hx as _ _ Hn. cbn [NAME with_geometry] in Hn.
      rewrite (Hname c Hc (eq_sym Hn)) in Hsound. discriminate Hsound.
    + apply elem_of_label in Hx as (? & _ & Heq). discriminate Heq.
  - apply elem_of_outside in Hc as [Hno Hc].
    apply elem_of_outside_layer in Hx as (? & _ & Hx).
    injection Hx as _ _ Hn. rewrite (Hname c Hc (eq_sym Hn)) in Hno.
    vm_compute in Hno. discriminate Hno.
  - apply elem_of_intersecting in Hc as [_ Hc].
    apply elem_of_outside_part_layer in Hx as (g & ? & Hg & _ & _ & Hx).
    injection Hx as _ _ Hn. rewrite (Hname c Hc (eq_sym Hn)) in Hg.
    discriminate Hg.
  - apply (elem_of_traced_frame _ _ _ _ _ Hframe) in Hr
      as (c & _ & _ & _ & _ & ->).
    apply elem_of_county_layers in Hx as (_ & ? & _ & [Hx|Hx]);
      [discriminate Hx|].
    apply elem_of_label in Hx as (? & _ & Heq). discriminate Heq.
Qed.

Lemma partial_county_both_clips_witness :
  classify (outline ky6) (outline (geometry scott)) = PARTIAL
  ∧ area (clip_of scott) = 1%nat
  ∧ area (Grid.difference (outline (geometry scott)) (outline ky6)) = 1%nat
  ∧ ∃ m, (create_ky6_map store (Ok districts) (Ok counties)).1 = Ok (Some m)
         ∧ GeoJson (clip_of scott) Included (CountyName "Scott") ∈ m
         ∧ GeoJson (Grid.difference (outline (geometry scott)) (outline ky6))
                   Excluded (OutsideDistrict "Scott") ∈ m.
Proof.
  assert (scott ∈ ky_counties counties) as Hin.
  { in_state. }
  assert (classify (outline ky6) (outline (geometry scott)) = PARTIAL) as Hclass.
  { vm_compute. reflexivity. }
  split; [exact Hclass|].
  split; [vm_compute; reflexivity|]. split; [vm_compute; reflexivity|].
  destruct (partial_county_both_clips store districts counties _ _ scott
              sample_district Hin scott_valid ky6_valid Hclass)
    as (_ & _ & _ & _ & Hm).
  exact Hm.
Defined.




Lemma lone_clip_failure_ends_run_witness :
  (create_ky6_map store (Ok [District "21" "06" ky6]) (Ok lone_counties)).1
  = Raise no_geometry_column
  ∧ ErrorProcessing "Clark" "TopologyException"
      ∈ (create_ky6_map store (Ok [District "21" "06" ky6]) (Ok lone_counties)).2.
Proof.
  assert (ky6_district [District "21" "06" ky6] = [District "21" "06" ky6])
    as Hd by reflexivity.
  assert (bowtie ∈ ky_counties lone_counties) as Hin.
  { in_state. }
  assert (∀ c', c' ∈ ky_counties lone_counties →
                Overlay.intersects (geometry c') ky6 = true → c' = bowtie) as Hlone.
  { intros c' [_ Hc']%list_elem_of_filter Hint. each_row Hc'; [reflexivity|].
    vm_compute in Hint. discriminate Hint. }
  assert (Overlay.intersects (geometry bowtie) ky6 = true) as Hint.
  { vm_compute. reflexivity. }
  assert (Overlay.intersection (geometry bowtie) ky6 = Raise "TopologyException")
    as Hraise.
  { vm_compute. reflexivity. }
  exact (lone_clip_failure_ends_run store _ lone_counties _ _ bowtie _
           Hd Hin Hlone Hint Hraise).
Defined.


Lemma markers_are_county_labels_witness :
  ∃ m, (create_ky6_map store (Ok districts) (Ok counties)).1 = Ok (Some m)
       ∧ Marker (1 # 2, 1 # 2) "Fayette" ∈ m
       ∧ ∃ c g g' p,
           c ∈ intersecting_counties ky6 counties
           ∧ Overlay.intersection (geometry c) ky6 = Ok g
           ∧ Overlay.buffer0 g = Ok g'
           ∧ anchor g' = Some (Ok p)
           ∧ (1 # 2, 1 # 2) = (py p, px p)
           ∧ "Fayette" = NAME c.
Proof.
  destruct sample_returns as [m Hm].
  exists m. split; [exact Hm|].
  split; [exact (sample_marker m Hm)|].
  exact (markers_are_county_labels store districts counties _ _ _ _ _
           sample_district Hm (sample_marker m Hm)).
Defined.

Lemma only_state_counties_drawn_witness :
  ∃ m, (create_ky6_map store (Ok districts) (Ok counties)).1 = Ok (Some m)
       ∧ GeoJson (outline (geometry pike)) Excluded (OutsideDistrict "Pike") ∈ m
       ∧ ∃ c, c ∈ counties ∧ STATEFP c = "21"
              ∧ ((Excluded = Excluded ∧ OutsideDistrict "Pike" = OutsideDistrict (NAME c))
                 ∨ (Excluded = Included ∧ OutsideDistrict "Pike" = CountyName (NAME c))).
Proof.
  destruct sample_returns as [m Hm].
  exists m. split; [exact Hm|].
  split; [exact (sample_grey m Hm)|].
  exact (only_state_counties_drawn store districts counties _ _ _ _ _ _
           sample_district Hm (sample_grey m Hm)).
Defined.

Lemma boundary_drawn_once_witness :
  ∃ m below above,
    (create_ky6_map store (Ok districts) (Ok counties)).1 = Ok (Some m)
    ∧ m = below ++ [GeoJsonFrame [District "21" "06" ky6] Boundary DistrictTitle]
            ++ above
    ∧ Forall (λ x, ∀ rows st tip, x ≠ GeoJsonFrame rows st tip) (below ++ above).
Proof.
  destruct sample_returns as [m Hm].
  destruct (boundary_drawn_once store districts counties _ _ m sample_district Hm)
    as (below & above & Heq & Hnone).
  exists m, below, above. split; [exact Hm|]. split; [exact Heq|exact Hnone].
Defined.

Lemma only_first_district_row_clips_witness :
  let twice := [District "21" "06" ky6;
                District "21" "06" (ring (rect 10 10 1 1))] in
  ∃ below above,
    (create_ky6_map store (Ok districts) (Ok counties)).1
    = Ok (Some (below ++ [GeoJsonFrame [District "21" "06" ky6] Boundary DistrictTitle]
                  ++ above))
    ∧ (create_ky6_map store (Ok twice) (Ok counties)).1
      = Ok (Some (below ++ [GeoJsonFrame twice Boundary DistrictTitle] ++ above)).
Proof.
  intros twice.
  assert (ky6_district twice = twice) as H2 by reflexivity.
  destruct sample_returns as [m Hm].
  destruct (proj1 (only_first_district_row_clips store districts twice counties
                     _ _ _ _ sample_district H2 eq_refl) m Hm)
    as (below & above & Heq & Hm2).
  exists below, above. split; [|exact Hm2]. rewrite Hm, Heq. reflexivity.
Defined.

Lemma missing_district_diagnostic_witness :
  let table := [District "21" "01" ky6; District "21" "01" ky6;
                District "39" "06" ky6; District "21" "02" ky6] in
  (create_ky6_map store (Ok table) (Ok counties)).1 = Ok None
  ∧ ∃ codes,
      (create_ky6_map store (Ok table) (Ok counties)).2
      = (DataFiles <$> (Files.download_and_extract_data store).2)
        ++ [DistrictNotFound; AvailableDistricts codes]
      ∧ (Files.download_and_extract_data store).2 ≠ []
      ∧ NoDup codes
      ∧ ("06" ∉ codes)
      ∧ ∀ code, code ∈ codes
                ↔ ∃ d, d ∈ table ∧ dSTATEFP d = "21" ∧ CD119FP d = code.
Proof.
  intros table.
  assert ((create_ky6_map store (Ok table) (Ok counties)).1 = Ok None) as Hnone
    by reflexivity.
  split; [exact Hnone|].
  exact (missing_district_diagnostic store table counties Hnone).
Defined.

Lemma closing_summary_lists_kept_counties_witness :
  ∃ m out before names,
    create_ky6_map store (Ok districts) (Ok counties) = (Ok (Some m), out)
    ∧ out = before ++ [MapCreated; CountiesHeading] ++ (CountyListed <$> names)
    ∧ "Bath" ∈ names
    ∧ "Pike" ∉ names.
Proof.
  destruct sample_run as (frame & m & out & Hframe & Hrun).
  destruct (closing_summary_lists_kept_counties store districts counties
              _ _ m out sample_district Hrun)
    as (before & names & Hout & _ & _ & Hnames).
  exists m, out, before, names. split; [exact Hrun|]. split; [exact Hout|].
  split.
  - apply Hnames.
    exists bath, (ring (Grid.intersection (outline (geometry bath)) (outline ky6))),
           (ring (clip_of bath)).
    split; [exact bath_intersecting|].
    repeat split; vm_compute; reflexivity.
  - intros (c & g & g' & [Hint [_ Hc]%list_elem_of_filter]%elem_of_intersecting
              & _ & _ & _ & _ & Hn)%Hnames.
    each_row Hc; try discriminate Hn. vm_compute in Hint. discriminate Hint.
Defined.

(** C2, as stated, fails: the horseshoe is one polygon, so its label goes to
    the centroid, and the centroid falls in the notch. *)
Lemma centroid_anchor_outside :
  ¬ (∀ (g : traced) (p : point),
       Overlay.is_empty g = false →
       anchor g = Some (Ok p) →
       Grid.contains (outline g) p = true).
Proof.
  intros Hclaim.
  assert (Grid.contains (outline (ring horseshoe)) (Point (21 # 14) (19 # 14))
          = true) as Hin.
  { apply Hclaim; vm_compute; reflexivity. }
  vm_compute in Hin. discriminate.
Qed.

Lemma anchor_multipart_inside_witness :
  Overlay.geom_type (ring islands) = "MultiPolygon"
  ∧ ∃ p, anchor (ring islands) = Some (Ok p)
         ∧ Overlay.representative_point (ring islands) = Ok p
         ∧ Grid.contains islands p = true.
Proof.
  assert (Overlay.geom_type (ring islands) = "MultiPolygon") as Hty.
  { vm_compute. reflexivity. }
  split; [exact Hty|].
  exact (proj1 (anchor_multipart_inside (ring islands)) Hty).
Defined.

Lemma clipped_rows_always_labelled_witness :
  ∃ frame,
    (clipped_counties ky6 counties (World [] [])).1 = Ok frame
    ∧ with_geometry scott (ring (clip_of scott)) ∈ frame
    ∧ ∃ p, county_layers (with_geometry scott (ring (clip_of scott)))
           = [GeoJson (clip_of scott) Included (CountyName "Scott");
              Marker (py p, px p) "Scott"].
Proof.
  destruct (sample_frame (World [] [])) as (frame & Hframe & _ & Hscott & _).
  exists frame. split; [exact Hframe|]. split; [exact Hscott|].
  destruct (clipped_rows_always_labelled ky6 counties (World [] []) frame _
              Hframe Hscott) as [[Hempty _]|Hdrawn].
  - vm_compute in Hempty. discriminate Hempty.
  - exact Hdrawn.
Defined.

Lemma included_inside_excluded_outside_witness :
  ∃ m, Overlay.is_valid ky6 = true
       ∧ (create_ky6_map store (Ok districts) (Ok counties)).1 = Ok (Some m)
       ∧ GeoJson (outline (geometry pike)) Excluded (OutsideDistrict "Pike") ∈ m
       ∧ area (Grid.intersection (outline (geometry pike)) (outline ky6)) = 0%nat.
Proof.
  destruct sample_returns as [m Hm].
  exists m. split; [exact ky6_valid|]. split; [exact Hm|].
  split; [exact (sample_grey m Hm)|].
  destruct (included_inside_excluded_outside store districts counties _ _ _ _ _ _
              sample_district ky6_valid Hm (sample_grey m Hm))
    as [(Habs & _)|(_ & Harea)].
  - discriminate Habs.
  - exact Harea.
Defined.

Lemma every_intersecting_county_listed_witness :
  bath ∈ intersecting_counties ky6 counties
  ∧ ∃ frame,
      (clipped_counties ky6 counties (World [] [])).1 = Ok frame
      ∧ "Bath" ∈ listing frame
      ∧ county_layers (with_geometry bath (ring (clip_of bath))) = [].
Proof.
  split; [exact bath_intersecting|].
  destruct (every_intersecting_county_listed ky6 counties (World [] []) bath
              bath_intersecting bath_valid ky6_valid)
    as (frame & Hframe & _ & Hlist & Hnone).
  exists frame. split; [exact Hframe|]. split; [exact Hlist|].
  exact (Hnone bath_touches).
Defined.

End Runs.

(** ** The address check *)

Section AddressCheck.
Import Lookup.

(** C1, as stated, fails.  Take for Region the square of one degree with
    corners (-85, 38) and (-84, 39).  The point at latitude 38.75, longitude
    -84.5 lies in it, and the check answers no. *)
Lemma bounding_box_is_not_polygon_test :
  ¬ (∀ (region : Grid.shape) (lat lon : Q),
       checkIfInDistrict lat lon = contains region lat lon).
Proof.
  intros Hclaim.
  specialize (Hclaim (Grid.rect (-85) 38 1 1) (155 # 4) (-169 # 2))%Q.
  vm_compute in Hclaim. discriminate.
Qed.

(** C1, amended: the answer shown for an address is the test against one
    fixed rectangle, south <= lat <= north and west <= lon <= east, whatever
    Region is drawn. *)
Theorem checkIfInDistrict_bounding_box (lat lon : Q) :
  checkIfInDistrict lat lon = true
  ↔ (south bounds <= lat ∧ lat <= north bounds
     ∧ west bounds <= lon ∧ lon <= east bounds)%Q.
Proof.
  unfold checkIfInDistrict.
  rewrite !andb_true_iff, !Qle_bool_iff. tauto.
Qed.

End AddressCheck.

(** ** The data files *)

Section FilesFacts.
Import Files.
Implicit Types (fs : store) (p src dst : string).

Lemma lookup_copy_if_exists src dst fs p :
  copy_if_exists src dst fs !! p
  = if decide (p = dst)
    then match fs !! src with Some data => Some data | None => fs !! dst end
    else fs !! p.
Proof.
  unfold copy_if_exists. destruct (fs !! src) as [data|] eqn:Hs.
  - case_decide as Hp; [subst; apply lookup_insert_eq|by apply lookup_insert_ne].
  - case_decide; by subst.
Qed.

Lemma apart_ne a b e e' :
  apart a b → e ∈ sidecars → e' ∈ sidecars → a +:+ e ≠ b +:+ e'.
Proof.
  unfold apart. rewrite Forall_forall. intros Ha He He'.
  specialize (Ha e He). rewrite Forall_forall in Ha. by apply Ha.
Qed.

Lemma copy_each_other src_stem dst_stem exts fs p :
  (∀ e, e ∈ exts → p ≠ dst_stem +:+ e) →
  copy_each src_stem dst_stem exts fs !! p = fs !! p.
Proof.
  revert fs. induction exts as [|e exts IH]; intros fs Hp; simpl; [done|].
  unfold copy_each in *. simpl. rewrite IH.
  - rewrite lookup_copy_if_exists. rewrite decide_False; [done|].
    apply Hp. left.
  - intros e' He'. apply Hp. by right.
Qed.

Lemma copy_each_written src_stem dst_stem exts fs e :
  (∀ e1 e2, e1 ∈ exts → e2 ∈ exts → src_stem +:+ e1 ≠ dst_stem +:+ e2) →
  e ∈ exts →
  copy_each src_stem dst_stem exts fs !! (dst_stem +:+ e)
  = match fs !! (src_stem +:+ e) with
    | Some data => Some data
    | None => fs !! (dst_stem +:+ e)
    end.
Proof.
  revert fs. induction exts as [|e0 exts IH]; intros fs Hapart He.
  { by apply elem_of_nil in He. }
  unfold copy_each in *. simpl.
  assert (∀ e1 e2, e1 ∈ exts → e2 ∈ exts →
            src_stem +:+ e1 ≠ dst_stem +:+ e2) as Hapart'.
  { intros e1 e2 H1 H2. apply Hapart; by right. }
  assert (∀ x, x ∈ e0 :: exts →
            copy_if_exists (src_stem +:+ e0) (dst_stem +:+ e0) fs
              !! (src_stem +:+ x) = fs !! (src_stem +:+ x)) as Hsrc.
  { intros x Hx. rewrite lookup_copy_if_exists, decide_False; [done|].
    apply Hapart; [done|left]. }
  destruct (decide (e ∈ exts)) as [Hin|Hout].
  - rewrite IH by done. rewrite Hsrc by done.
    destruct (fs !! (src_stem +:+ e)) as [data|] eqn:Hs; [done|].
    rewrite lookup_copy_if_exists. case_decide as Heq; [|done].
    apply (inj (String.app dst_stem)) in Heq. subst e0. by rewrite Hs.
  - apply elem_of_cons in He as [->|?]; [|done].
    fold (copy_each src_stem dst_stem exts
            (copy_if_exists (src_stem +:+ e0) (dst_stem +:+ e0) fs)).
    rewrite copy_each_other.
    + rewrite lookup_copy_if_exists, decide_True by done. done.
    + intros e' He' Heq. apply (inj (String.app dst_stem)) in Heq.
      by subst e'.
Qed.

Lemma copy_files_each src_stem dst_stem fs :
  copy_files src_stem dst_stem fs = copy_each src_stem dst_stem sidecars fs.
Proof. done. Qed.

Lemma stems_apart :
  apart congress_stem "congress_districts" ∧ apart congress_stem "counties"
  ∧ apart county_stem "congress_districts" ∧ apart county_stem "counties"
  ∧ apart "congress_districts" "counties" ∧ apart "counties" "congress_districts".
Proof. unfold apart. repeat split; compute_done. Qed.

Lemma elem_of_working_copies p :
  p ∈ working_copies
  ↔ ∃ e, e ∈ sidecars ∧ (p = "congress_districts" +:+ e ∨ p = "counties" +:+ e).
Proof.
  unfold working_copies. rewrite elem_of_app, !list_elem_of_fmap. naive_solver.
Qed.

Lemma copied_other fs p : p ∉ working_copies → copied fs !! p = fs !! p.
Proof.
  intros Hp. unfold copied.
  assert (∀ stem fs', (stem = "congress_districts" ∨ stem = "counties") →
            ∀ src, copy_files src stem fs' !! p = fs' !! p) as Hgroup.
  { intros stem fs' Hstem src. rewrite copy_files_each. apply copy_each_other.
    intros e He ->. apply Hp, elem_of_working_copies. naive_solver. }
  destruct (negb (exists_ fs "congress_districts.shp"));
    destruct (negb (exists_ _ "counties.shp"));
    rewrite ?Hgroup by auto; done.
Qed.

Lemma download_store fs :
  (download_and_extract_data fs).1.2
  = if (download_and_extract_data fs).1.1 then copied fs else fs.
Proof.
  unfold download_and_extract_data.
  destruct (negb (exists_ fs (congress_stem +:+ ".shp"))); [done|].
  destruct (negb (exists_ fs (county_stem +:+ ".shp"))); done.
Qed.

Lemma download_flag fs :
  (download_and_extract_data fs).1.1
  = exists_ fs (congress_stem +:+ ".shp") && exists_ fs (county_stem +:+ ".shp").
Proof.
  unfold download_and_extract_data.
  destruct (exists_ fs (congress_stem +:+ ".shp")); simpl; [|done].
  destruct (exists_ fs (county_stem +:+ ".shp")); done.
Qed.

(** X10: the function writes nothing but its ten working copies: every
    other path, the shapefiles of the two source folders among them, holds
    after the call what it held before. *)
Theorem download_touches_only_working_copies fs p :
  p ∉ working_copies →
  (download_and_extract_data fs).1.2 !! p = fs !! p.
Proof.
  intros Hp. rewrite download_store.
  destruct (download_and_extract_data fs).1.1; [by apply copied_other|done].
Qed.

Lemma download_touches_only_working_copies_witness :
  let fs : store := {[ "tl_2024_21_cd119/tl_2024_21_cd119.shp" := "districts";
                       "tl_2024_us_county/tl_2024_us_county.shp" := "counties" ]} in
  ("tl_2024_21_cd119/tl_2024_21_cd119.shp" ∉ working_copies)
  ∧ (download_and_extract_data fs).1.2 !! "tl_2024_21_cd119/tl_2024_21_cd119.shp"
    = Some "districts".
Proof.
  intros fs.
  assert ("tl_2024_21_cd119/tl_2024_21_cd119.shp" ∉ working_copies) as Hp
    by compute_done.
  split; [exact Hp|].
  rewrite (download_touches_only_working_copies fs _ Hp). reflexivity.
Defined.

Lemma exists_copied_source fs p :
  p ∉ working_copies → exists_ (copied fs) p = exists_ fs p.
Proof. intros Hp. unfold exists_. by rewrite copied_other. Qed.

(** What each working copy of the district files holds after the copies. *)
Lemma copied_congress fs e :
  e ∈ sidecars →
  copied fs !! ("congress_districts" +:+ e)
  = if exists_ fs "congress_districts.shp"
    then fs !! ("congress_districts" +:+ e)
    else match fs !! (congress_stem +:+ e) with
         | Some data => Some data
         | None => fs !! ("congress_districts" +:+ e)
         end.
Proof.
  intros He. destruct stems_apart as (H1 & _ & _ & _ & H5 & _).
  unfold copied.
  assert (∀ fs', (if negb (exists_ fs' "counties.shp")
                  then copy_files county_stem "counties" fs' else fs')
                 !! ("congress_districts" +:+ e)
                 = fs' !! ("congress_districts" +:+ e)) as ->.
  { intros fs'. destruct (negb _); [|done].
    rewrite copy_files_each. apply copy_each_other.
    intros e' He'. by apply apart_ne. }
  destruct (exists_ fs "congress_districts.shp"); simpl; [done|].
  rewrite copy_files_each. apply copy_each_written; [|done].
  intros e1 e2 ??. by apply apart_ne.
Qed.

(** What each working copy of the county files holds after the copies. *)
Lemma copied_counties fs e :
  e ∈ sidecars →
  copied fs !! ("counties" +:+ e)
  = if exists_ fs "counties.shp"
    then fs !! ("counties" +:+ e)
    else match fs !! (county_stem +:+ e) with
         | Some data => Some data
         | None => fs !! ("counties" +:+ e)
         end.
Proof.
  intros He. destruct stems_apart as (_ & _ & H3 & H4 & _ & H6).
  unfold copied.
  set (fs1 := if negb (exists_ fs "congress_districts.shp")
              then copy_files congress_stem "congress_districts" fs else fs).
  assert (∀ p, (∀ e', e' ∈ sidecars → p ≠ "congress_districts" +:+ e') →
               fs1 !! p = fs !! p) as Hfs1.
  { intros p Hp. unfold fs1. destruct (negb _); [|done].
    rewrite copy_files_each. by apply copy_each_other. }
  assert (exists_ fs1 "counties.shp" = exists_ fs "counties.shp") as ->.
  { unfold exists_. rewrite Hfs1; [done|].
    intros e' He'. apply (apart_ne "counties" "congress_districts" ".shp" e');
      [done|compute_done|done]. }
  assert (fs1 !! ("counties" +:+ e) = fs !! ("counties" +:+ e)) as Hdst.
  { apply Hfs1. intros e' He'. by apply apart_ne. }
  destruct (exists_ fs "counties.shp"); simpl; [done|].
  rewrite copy_files_each, copy_each_written; [|intros e1 e2 ??; by apply apart_ne|done].
  rewrite Hdst, Hfs1; [done|].
  intros e' He'. by apply apart_ne.
Qed.

Lemma shp_sidecar : ".shp" ∈ sidecars.
Proof. left. Qed.

Lemma copied_has_working_copies fs :
  exists_ fs (congress_stem +:+ ".shp") = true →
  exists_ fs (county_stem +:+ ".shp") = true →
  exists_ (copied fs) "congress_districts.shp" = true
  ∧ exists_ (copied fs) "counties.shp" = true.
Proof.
  unfold exists_ at 1 2. rewrite !bool_decide_eq_true. intros [d1 H1] [d2 H2].
  split; unfold exists_ at 1; apply bool_decide_eq_true.
  - change "congress_districts.shp" with ("congress_districts" +:+ ".shp").
    rewrite (copied_congress fs ".shp" shp_sidecar).
    destruct (exists_ fs "congress_districts.shp") eqn:E.
    + by apply bool_decide_eq_true in E.
    + by rewrite H1.
  - change "counties.shp" with ("counties" +:+ ".shp").
    rewrite (copied_counties fs ".shp" shp_sidecar).
    destruct (exists_ fs "counties.shp") eqn:E.
    + by apply bool_decide_eq_true in E.
    + by rewrite H2.
Qed.

(** X11: the function answers [True] exactly when both source shapefiles
    are there.  When it answers [False] it has copied nothing; when it
    answers [True] both working shapefiles exist afterwards. *)
Theorem download_succeeds_iff_sources fs :
  ((download_and_extract_data fs).1.1 = true
   ↔ is_Some (fs !! "tl_2024_21_cd119/tl_2024_21_cd119.shp")
     ∧ is_Some (fs !! "tl_2024_us_county/tl_2024_us_county.shp"))
  ∧ ((download_and_extract_data fs).1.1 = false →
     (download_and_extract_data fs).1.2 = fs)
  ∧ ((download_and_extract_data fs).1.1 = true →
     is_Some ((download_and_extract_data fs).1.2 !! "congress_districts.shp")
     ∧ is_Some ((download_and_extract_data fs).1.2 !! "counties.shp")).
Proof.
  rewrite download_store, download_flag. split; [|split].
  - rewrite andb_true_iff. unfold exists_. rewrite !bool_decide_eq_true. done.
  - by intros ->.
  - intros Hok. rewrite Hok.
    apply andb_true_iff in Hok as [H1 H2].
    destruct (copied_has_working_copies fs H1 H2) as [H3 H4].
    unfold exists_ in H3, H4. by rewrite !bool_decide_eq_true in H3, H4.
Qed.

Lemma download_succeeds_iff_sources_witness :
  let fs : store := {[ "tl_2024_21_cd119/tl_2024_21_cd119.shp" := "districts";
                       "tl_2024_us_county/tl_2024_us_county.shp" := "counties" ]} in
  (download_and_extract_data fs).1.1 = true
  ∧ is_Some ((download_and_extract_data fs).1.2 !! "congress_districts.shp")
  ∧ is_Some ((download_and_extract_data fs).1.2 !! "counties.shp").
Proof.
  intros fs.
  assert ((download_and_extract_data fs).1.1 = true) as Hok
    by (vm_compute; reflexivity).
  split; [exact Hok|].
  exact (proj2 (proj2 (download_succeeds_iff_sources fs)) Hok).
Defined.

(** X12: a second call finds both working shapefiles in place and copies
    nothing: it returns the same flag and prints the same lines as the
    first, and leaves the store as the first call left it. *)
Theorem download_is_idempotent fs :
  download_and_extract_data (download_and_extract_data fs).1.2
  = download_and_extract_data fs.
Proof.
  destruct (download_and_extract_data fs).1.1 eqn:Hok.
  - pose proof Hok as Hflag. rewrite download_flag in Hflag.
    apply andb_true_iff in Hflag as [H1 H2].
    destruct (copied_has_working_copies fs H1 H2) as [H3 H4].
    assert ((download_and_extract_data fs).1.2 = copied fs) as Hst.
    { by rewrite download_store, Hok. }
    rewrite Hst.
    assert (download_and_extract_data fs
            = (true, copied fs, ["Using local data files successfully!"])) as ->.
    { unfold download_and_extract_data. rewrite H1, H2. done. }
    unfold download_and_extract_data.
    rewrite !exists_copied_source by compute_done.
    rewrite H1, H2. cbn [negb]. rewrite H3. cbn [negb]. rewrite H4. done.
  - assert ((download_and_extract_data fs).1.2 = fs) as ->; [|done].
    by rewrite download_store, Hok.
Qed.

(** X13: when the call succeeds and a working shapefile is missing, each
    file of its group is taken from the source folder where the source has
    it, and is left as it was where the source lacks it (an old side file
    stays beside the new shapefile). *)
Theorem fresh_copy_content fs e :
  (download_and_extract_data fs).1.1 = true →
  e ∈ sidecars →
  (fs !! "congress_districts.shp" = None →
   (download_and_extract_data fs).1.2 !! ("congress_districts" +:+ e)
   = match fs !! ("tl_2024_21_cd119/tl_2024_21_cd119" +:+ e) with
     | Some data => Some data
     | None => fs !! ("congress_districts" +:+ e)
     end)
  ∧ (fs !! "counties.shp" = None →
     (download_and_extract_data fs).1.2 !! ("counties" +:+ e)
     = match fs !! ("tl_2024_us_county/tl_2024_us_county" +:+ e) with
       | Some data => Some data
       | None => fs !! ("counties" +:+ e)
       end).
Proof.
  intros Hok He. rewrite download_store, Hok. split; intros Hnone.
  - rewrite copied_congress by done. unfold exists_. rewrite Hnone.
    rewrite bool_decide_eq_false_2; [done|]. by intros [??].
  - rewrite copied_counties by done. unfold exists_. rewrite Hnone.
    rewrite bool_decide_eq_false_2; [done|]. by intros [??].
Qed.

(** X14: a working shapefile that is already there is never refreshed: the
    call leaves every file of its group as it was, whatever the source
    folder holds. *)
Theorem existing_working_copy_wins fs e :
  e ∈ sidecars →
  (is_Some (fs !! "congress_districts.shp") →
   (download_and_extract_data fs).1.2 !! ("congress_districts" +:+ e)
   = fs !! ("congress_districts" +:+ e))
  ∧ (is_Some (fs !! "counties.shp") →
     (download_and_extract_data fs).1.2 !! ("counties" +:+ e)
     = fs !! ("counties" +:+ e)).
Proof.
  intros He. rewrite download_store.
  destruct (download_and_extract_data fs).1.1; [|done].
  split; intros Hsome.
  - rewrite copied_congress by done. unfold exists_.
    by rewrite bool_decide_eq_true_2.
  - rewrite copied_counties by done. unfold exists_.
    by rewrite bool_decide_eq_true_2.
Qed.

Lemma fresh_copy_content_witness :
  let fs : store := {[ "tl_2024_21_cd119/tl_2024_21_cd119.shp" := "new districts";
                       "tl_2024_us_county/tl_2024_us_county.shp" := "new counties";
                       "congress_districts.cpg" := "old encoding" ]} in
  (download_and_extract_data fs).1.1 = true
  ∧ (download_and_extract_data fs).1.2 !! "congress_districts.shp"
    = Some "new districts"
  ∧ (download_and_extract_data fs).1.2 !! "congress_districts.cpg"
    = Some "old encoding".
Proof.
  intros fs.
  assert ((download_and_extract_data fs).1.1 = true) as Hok by (vm_compute; reflexivity).
  assert (fs !! "congress_districts.shp" = None) as Hnone by (vm_compute; reflexivity).
  split; [exact Hok|]. split.
  - exact (proj1 (fresh_copy_content fs ".shp" Hok ltac:(compute_done)) Hnone).
  - exact (proj1 (fresh_copy_content fs ".cpg" Hok ltac:(compute_done)) Hnone).
Defined.

Lemma existing_working_copy_wins_witness :
  let fs : store := {[ "tl_2024_21_cd119/tl_2024_21_cd119.shp" := "new districts";
                       "tl_2024_us_county/tl_2024_us_county.shp" := "new counties";
                       "congress_districts.shp" := "old districts" ]} in
  (download_and_extract_data fs).1.1 = true
  ∧ (download_and_extract_data fs).1.2 !! "congress_districts.shp"
    = Some "old districts".
Proof.
  intros fs. split; [vm_compute; reflexivity|].
  refine (proj1 (existing_working_copy_wins fs ".shp" ltac:(compute_done)) _).
  vm_compute. eexists. reflexivity.
Defined.

End FilesFacts.

(** ** The search box *)

Section PageFacts.
Import Lookup Page.
Implicit Types (s : page) (e : event) (r : response).

Lemma removeLayer_only (m : marker) (w : leaflet) :
  layers w = [m] → layers (removeLayer m w) = [].
Proof.
  intros Hw. unfold removeLayer. simpl. rewrite Hw.
  rewrite filter_cons, decide_False by (intros Hne; by apply Hne). done.
Qed.

(** A marker placed on a bound map takes the place of the previous one. *)
Lemma place_marker_bound (h : hit) (b : bool) s :
  map s = true → one_marker s →
  place_marker h b s
  = let m := Marker (next_stamp (widget s)) (lat h) (lon h)
                    (if b then green else red) (display_name h) b in
    PageState (Some m) true (originalView s)
              (Leaflet [m] (current (widget s)) (S (next_stamp (widget s))))
              (addressInput s) (addressResult s) true.
Proof.
  unfold one_marker, place_marker. intros -> Hs.
  destruct s as [cm mp ov [ls cur nxt] inp box btn]. simpl in *.
  destruct cm as [old|]; subst ls; [|done].
  unfold removeLayer, addTo. simpl.
  rewrite filter_cons, decide_False by (intros Hne; by apply Hne). done.
Qed.

Lemma place_marker_one (h : hit) (b : bool) s :
  one_marker s → one_marker (place_marker h b s).
Proof.
  intros Hs. destruct (map s) eqn:Hm.
  - by rewrite place_marker_bound.
  - unfold place_marker. by rewrite Hm.
Qed.

Lemma settle_one r s : one_marker s → one_marker (settle r s).
Proof.
  intros Hs. unfold settle. destruct r as [|[|h data]]; [done..|].
  apply place_marker_one. by destruct (checkIfInDistrict _ _).
Qed.

Lemma resetMap_one s : one_marker s → one_marker (resetMap s).
Proof.
  unfold one_marker, resetMap. intros Hs.
  destruct s as [cm mp ov [ls cur nxt] inp box btn]. simpl in *.
  destruct cm as [m|]; subst ls; destruct mp, ov; simpl; try done;
    rewrite filter_cons, decide_False by (intros Hne; by apply Hne); done.
Qed.

Lemma step_one s e : one_marker s → one_marker (step s e).
Proof.
  intros Hs. destruct e as [found|address| |r| |v]; simpl.
  - unfold loaded. by destruct found.
  - done.
  - unfold submit. by destruct (blank _).
  - by apply settle_one.
  - by apply resetMap_one.
  - done.
Qed.

(** A property every event keeps holds after any run. *)
Lemma run_keeps (P : page → Prop) (allowed : event → Prop) :
  (∀ s e, allowed e → P s → P (step s e)) →
  ∀ events s, Forall allowed events → P s → P (run events s).
Proof.
  intros Hstep events. induction events as [|e events IH]; intros s Hall Hs;
    [done|].
  apply Forall_cons in Hall as [He Hall]. simpl. apply IH; [done|].
  by apply Hstep.
Qed.

Lemma run_one events s : one_marker s → one_marker (run events s).
Proof.
  apply (run_keeps one_marker (λ _, True)).
  - intros ????. by apply step_one.
  - by apply Forall_true.
Qed.

(** X15: whatever the visitor does, and in whatever order requests settle,
    the map never holds more than one address marker, and the one it holds
    is the script's current marker. *)
Theorem at_most_one_marker (v : view) (events : list event) :
  one_marker (run events (served v))
  ∧ (length (layers (widget (run events (served v)))) ≤ 1)%nat.
Proof.
  assert (one_marker (run events (served v))) as Hone.
  { by apply run_one. }
  split; [done|]. rewrite Hone. destruct (currentMarker _); simpl; lia.
Qed.

(** Without a new [Load], the map stays bound and the stored view stays. *)
Lemma step_keeps_binding (v0 : view) s e :
  is_load e = false →
  map s = true ∧ originalView s = Some v0 →
  map (step s e) = true ∧ originalView (step s e) = Some v0.
Proof.
  intros He [Hm Hv]. destruct e as [found|address| |r| |w]; simpl; try done.
  - unfold submit. by destruct (blank _).
  - unfold settle. destruct r as [|[|h data]]; [done..|].
    unfold place_marker. destruct (checkIfInDistrict _ _); simpl; by rewrite Hm.
  - unfold resetMap.
    by destruct (currentMarker s) as [m|], (map s), (originalView s).
Qed.

(** X16: once the map is bound, the reset button brings the page back:
    whatever happened since, the marker is gone from the map, the view is
    the one the map had when it was bound, the input is empty, and the
    result box and the button are hidden. *)
Theorem reset_restores_the_page (v : view) (before after : list event) :
  Forall (λ e, is_load e = false) after →
  let bound := loaded true (run before (served v)) in
  let s := resetMap (run after bound) in
  currentMarker s = None
  ∧ layers (widget s) = []
  ∧ current (widget s) = current (widget bound)
  ∧ addressInput s = []
  ∧ shown (addressResult s) = false
  ∧ resetButton s = false.
Proof.
  intros Hafter bound s.
  assert (one_marker (run after bound)) as Hone.
  { apply run_one. unfold bound, loaded. apply (run_one before (served v)). done. }
  assert (map (run after bound) = true
          ∧ originalView (run after bound) = Some (current (widget bound))) as [Hm Hv].
  { apply (run_keeps (λ s, map s = true
                           ∧ originalView s = Some (current (widget bound)))
             (λ e, is_load e = false)); [|done|done].
    intros s' e He Hs'. by apply step_keeps_binding. }
  unfold s. clearbody bound. clear s.
  destruct (run after bound) as [cm mp ov [ls cur nxt] inp box btn].
  unfold one_marker in Hone. simpl in *. subst mp ov.
  unfold resetMap. simpl.
  destruct cm as [m|]; subst ls; simpl; [|done].
  rewrite filter_cons, decide_False by (intros Hne; by apply Hne). done.
Qed.

(** X17: a lookup that does not end in a hit on a bound map changes no
    marker.  With a blank input, a thrown request, an empty answer, or a
    map not yet bound, the marker of the previous lookup, the map and the
    reset button stay as they were, while the result box is shown with the
    new message. *)
Theorem marker_changes_only_on_a_hit r s :
  blank (addressInput s) = true ∨ r = Thrown ∨ r = Data [] ∨ map s = false →
  let s' := checkAddress r s in
  currentMarker s' = currentMarker s
  ∧ widget s' = widget s
  ∧ resetButton s' = resetButton s
  ∧ shown (addressResult s') = true
  ∧ (blank (addressInput s) = true →
     innerHTML (addressResult s') = Some PleaseEnter)
  ∧ (blank (addressInput s) = false → r = Thrown →
     innerHTML (addressResult s') = Some ErrorChecking)
  ∧ (blank (addressInput s) = false → r = Data [] →
     innerHTML (addressResult s') = Some AddressNotFound).
Proof.
  intros Hcase. unfold checkAddress, submit.
  destruct (blank (addressInput s)) eqn:Hb; simpl; [done|].
  destruct Hcase as [?|[->|[->|Hm]]]; [done|done|done|].
  destruct r as [|[|h data]]; simpl; [done|done|].
  unfold place_marker.
  destruct (checkIfInDistrict _ _); simpl; rewrite Hm; done.
Qed.

Lemma checkAddress_hit (h : hit) (others : list hit) s :
  blank (addressInput s) = false →
  checkAddress (Data (h :: others)) s
  = let ok := checkIfInDistrict (lat h) (lon h) in
    place_marker h ok
      (showResult (if ok then Yes else No) (if ok then success else error)
                  (showResult Checking loading s)).
Proof.
  intros Hb. unfold checkAddress, submit. rewrite Hb. simpl.
  by destruct (checkIfInDistrict _ _).
Qed.

(** X18: a hit on a bound map.  The verdict, the colours of the result box,
    the colour of the marker and the flag in its popup all follow the
    bounding-box check of the first record; the marker stands at that
    record's coordinates and is the only address marker on the map; the
    view is not moved, and the reset button shows. *)
Theorem verdict_and_marker_agree (v : view) (events : list event)
    (h : hit) (others : list hit) :
  let s := run events (served v) in
  blank (addressInput s) = false →
  map s = true →
  let s' := checkAddress (Data (h :: others)) s in
  let ok := checkIfInDistrict (lat h) (lon h) in
  innerHTML (addressResult s') = Some (if ok then Yes else No)
  ∧ colours (addressResult s') = Some (if ok then success else error)
  ∧ (∃ m, currentMarker s' = Some m
          ∧ layers (widget s') = [m]
          ∧ at_lat m = lat h ∧ at_lon m = lon h
          ∧ icon m = (if ok then green else red)
          ∧ popup_in m = ok
          ∧ popup_name m = display_name h)
  ∧ current (widget s') = current (widget s)
  ∧ resetButton s' = true.
Proof.
  intros s Hb Hm s' ok.
  assert (one_marker s) as Hone by (by apply run_one).
  unfold s'. rewrite (checkAddress_hit h others s Hb). fold ok.
  rewrite place_marker_bound by done.
  destruct ok; simpl; eauto 12.
Qed.

(** X19: while the map is not bound (the timer has not fired, or found no
    [map_] key), lookups are answered in the result box but nothing is put
    on the map: no marker, and the reset button stays hidden. *)
Theorem unbound_map_never_marks (v : view) (events : list event) :
  Forall (λ e, e ≠ Load true) events →
  let s := run events (served v) in
  map s = false
  ∧ currentMarker s = None
  ∧ layers (widget s) = []
  ∧ resetButton s = false.
Proof.
  intros Hev.
  apply (run_keeps (λ s, map s = false ∧ currentMarker s = None
                         ∧ layers (widget s) = [] ∧ resetButton s = false)
           (λ e, e ≠ Load true)); [|done|done].
  intros s e He (Hm & Hc & Hl & Hr).
  destruct e as [found|address| |r| |w]; simpl; try done.
  - unfold loaded. destruct found; done.
  - unfold submit. by destruct (blank _).
  - unfold settle. destruct r as [|[|h data]]; [done..|].
    unfold place_marker. destruct (checkIfInDistrict _ _); simpl; by rewrite Hm.
  - unfold resetMap. rewrite Hm, Hc. simpl. done.
Qed.

Lemma reset_restores_the_page_witness :
  let v := View (38 # 1, -169 # 2) 10 in
  let lexington := Hit (38 # 1) (-169 # 2) "Lexington" in
  let after := [Type_ (units "Main St, Lexington"); Submit; Move (View (0 # 1, 0 # 1) 3);
                Settle (Data [lexington])] in
  let s := resetMap (run after (loaded true (run [] (served v)))) in
  Forall (λ e, is_load e = false) after
  ∧ currentMarker s = None
  ∧ layers (widget s) = []
  ∧ current (widget s) = v.
Proof.
  intros v lexington after s.
  assert (Forall (λ e, is_load e = false) after) as Hafter.
  { unfold after. repeat (constructor; [reflexivity|]). constructor. }
  split; [exact Hafter|].
  destruct (reset_restores_the_page v [] after Hafter) as (H1 & H2 & H3 & _).
  split; [exact H1|]. split; [exact H2|exact H3].
Defined.

Lemma marker_changes_only_on_a_hit_witness :
  let lexington := Hit (38 # 1) (-169 # 2) "Lexington" in
  let s := step (served (View (0 # 1, 0 # 1) 10)) (Type_ [160; 32]%N) in
  let s' := checkAddress (Data [lexington]) s in
  blank (addressInput s) = true
  ∧ currentMarker s' = currentMarker s
  ∧ widget s' = widget s
  ∧ innerHTML (addressResult s') = Some PleaseEnter.
Proof.
  intros lexington s s'.
  assert (blank (addressInput s) = true) as Hb by reflexivity.
  destruct (marker_changes_only_on_a_hit (Data [lexington]) s (or_introl Hb))
    as (H1 & H2 & _ & _ & H5 & _).
  split; [exact Hb|]. split; [exact H1|]. split; [exact H2|].
  exact (H5 Hb).
Defined.

Lemma verdict_and_marker_agree_witness :
  let v := View (38 # 1, -169 # 2) 10 in
  let events := [Load true; Type_ (units "Main St, Lexington")] in
  let lexington := Hit (38 # 1) (-169 # 2) "Lexington" in
  let s' := checkAddress (Data [lexington]) (run events (served v)) in
  blank (addressInput (run events (served v))) = false
  ∧ map (run events (served v)) = true
  ∧ innerHTML (addressResult s') = Some Yes
  ∧ resetButton s' = true.
Proof.
  intros v events lexington s'.
  assert (blank (addressInput (run events (served v))) = false) as Hb
    by reflexivity.
  assert (map (run events (served v)) = true) as Hm by reflexivity.
  split; [exact Hb|]. split; [exact Hm|].
  destruct (verdict_and_marker_agree v events lexington [] Hb Hm)
    as (H1 & _ & _ & _ & H5).
  split; [exact H1|exact H5].
Defined.

Lemma unbound_map_never_marks_witness :
  let lexington := Hit (38 # 1) (-169 # 2) "Lexington" in
  let events := [Type_ (units "Main St, Lexington"); Submit; Load false;
                 Settle (Data [lexington]); Reset] in
  let s := run events (served (View (0 # 1, 0 # 1) 10)) in
  Forall (λ e, e ≠ Load true) events
  ∧ map s = false
  ∧ currentMarker s = None
  ∧ layers (widget s) = []
  ∧ resetButton s = false.
Proof.
  intros lexington events s.
  assert (Forall (λ e, e ≠ Load true) events) as Hev.
  { unfold events. repeat (constructor; [discriminate|]). constructor. }
  split; [exact Hev|].
  exact (unbound_map_never_marks (View (0 # 1, 0 # 1) 10) events Hev).
Defined.

End PageFacts.
